(** * The record store of the movie catalogue

    A shallow embedding of [storage/movie_storage_sql.py] (the record
    store) and of [command_add_movie] from [main.py] (the caller that
    guards [add_movie]), together with the properties of the store that
    the specification states.

    Modelling choices.
    - The table [movies] is the list of its rows in scan order (rowid
      order, which is insertion order because AUTOINCREMENT rowids only
      grow).  The AUTOINCREMENT counter is kept next to it.
    - Arguments have the types of the columns they go to: TEXT is
      [string], INTEGER is [Z], REAL is [Q].  An INSERT fails when the
      year is outside the signed 64-bit range, because the driver cannot
      bind it.  A rating is a finite [float]; it is written as the
      rational number it is worth, and the arithmetic of
      [stats_of_movies] is done on the binary64 number itself, with the
      rounding of IEEE 754 ([float_of_Q]).  NaN (which SQLite binds as
      NULL), the infinities and the negative zero are worth no rational
      and are outside the model.  Arguments of these types are never
      NULL, so the NOT NULL constraints cannot fail and UNIQUE is the
      only constraint an INSERT can violate.
    - SQL's [LOWER] folds A-Z only and is defined here.  Python's
      [str.lower] folds letters of every alphabet; it is a parameter of
      the operations that use it, and the theorems about letter case
      assume of it only what it does on text of the 7-bit range.
    - Faults of the storage engine itself (disk errors and the like) are
      not modelled: the handler for unexpected exceptions of [add_movie]
      is entered for a year that cannot be bound and for nothing else.
    - Every operation runs in a small monad that threads the database and
      records what the operation prints and which SQL statements it sends
      to the engine. *)

From Stdlib Require Import List String Ascii Bool ZArith QArith Qabs Lia.
From Stdlib Require Import DecimalString Sorted Permutation SpecFloat.
Import ListNotations.

Local Open Scope string_scope.
Local Open Scope Z_scope.

(** ** Text *)

(** SQLite's built-in [LOWER] folds the letters A-Z only and leaves every
    other character as it is. *)
Definition lower_ascii (c : ascii) : ascii :=
  let n := N_of_ascii c in
  if ((65 <=? n) && (n <=? 90))%N then ascii_of_N (n + 32) else c.

Fixpoint sql_lower (s : string) : string :=
  match s with
  | EmptyString => EmptyString
  | String c s' => String (lower_ascii c) (sql_lower s')
  end.

(** Characters of the 7-bit range. *)
Definition is_ascii_char (c : ascii) : bool := (N_of_ascii c <? 128)%N.

Fixpoint is_ascii (s : string) : bool :=
  match s with
  | EmptyString => true
  | String c s' => is_ascii_char c && is_ascii s'
  end.

(** Decimal numerals, as [str] prints integers. *)
Definition str_of_N (n : N) : string := NilZero.string_of_uint (N.to_uint n).

Definition str_of_Z (z : Z) : string :=
  match z with
  | Zneg p => "-" ++ str_of_N (Npos p)
  | _ => str_of_N (Z.to_N z)
  end.

(** ** Numbers *)

(** Python's [<] and [>] on the values of ratings. *)
Definition Qlt_bool (x y : Q) : bool := negb (Qle_bool y x).
Definition Qgt_bool (x y : Q) : bool := Qlt_bool y x.

(** *** Floats *)

(** A Python [float] and a REAL of SQLite are IEEE 754 binary64 numbers:
    53 bits of precision, exponents below 1024. *)
Definition prec : Z := 53.
Definition emax : Z := 1024.

(** The float a rational stands for: the number itself when it is a
    binary64 number, and otherwise the nearest one, ties to even -- what
    Python makes of a decimal literal such as [6.6].  The quotient of
    numerator and denominator is rounded once. *)
Definition float_of_Q (q : Q) : spec_float :=
  match Qnum q with
  | Z0 => S754_zero false
  | Zpos n => SFdiv prec emax (S754_finite false n 0) (S754_finite false (Qden q) 0)
  | Zneg n => SFdiv prec emax (S754_finite true n 0) (S754_finite false (Qden q) 0)
  end.

(** [float(n)] for an [int], as [/] converts its right operand. *)
Definition float_of_int (n : Z) : spec_float := binary_normalize prec emax n 0 false.

(** [+], [/], [<] and [>] on floats. *)
Definition float_add (x y : spec_float) : spec_float := SFadd prec emax x y.
Definition float_truediv (x y : spec_float) : spec_float := SFdiv prec emax x y.
Definition float_lt (x y : spec_float) : bool := SFltb x y.
Definition float_gt (x y : spec_float) : bool := SFltb y x.

(** The rational a finite float is worth. *)
Definition Q_of_finite (s : bool) (m : positive) (e : Z) : Q :=
  match e with
  | Zneg p => cond_Zopp s (Zpos m) # 2 ^ p
  | _ => inject_Z (cond_Zopp s (Zpos m) * 2 ^ e)
  end.

(** [min(ratings)] and [max(ratings)] on a non-empty list: the first
    item is the candidate, a later item replaces it only when it is
    strictly smaller (resp. strictly larger). *)
Definition py_min (first : spec_float) (rest : list spec_float) : spec_float :=
  fold_left (fun best x => if float_lt x best then x else best) rest first.

Definition py_max (first : spec_float) (rest : list spec_float) : spec_float :=
  fold_left (fun best x => if float_gt x best then x else best) rest first.

(** [sum(ratings)]: starts from 0 and adds from left to right, every
    partial sum rounded to a float (the plain loop of CPython up to
    3.11; later versions carry a correction term along). *)
Definition py_sum (l : list spec_float) : spec_float :=
  fold_left float_add l (S754_zero false).

(** Rounding of a non-negative rational to the nearest integer, ties to
    the even one. *)
Definition round_half_even (q : Q) : Z :=
  let n := Qnum q in
  let d := Zpos (Qden q) in
  let f := n / d in
  let r := n mod d in
  match 2 * r ?= d with
  | Lt => f
  | Gt => f + 1
  | Eq => if Z.even f then f else f + 1
  end.

(** The format specification [:.2f] on the exact value of a number: the
    decimal expansion is rounded to two places, ties to even. *)
Definition format_2f (q : Q) : string :=
  let c := round_half_even (Qabs q * (100 # 1)) in
  let frac := c mod 100 in
  (if Qlt_bool q 0 then "-" else EmptyString)
    ++ str_of_Z (c / 100) ++ "."
    ++ (if frac <? 10 then "0" else EmptyString) ++ str_of_Z frac.

(** [f"{x:.2f}"] for a float. *)
Definition format_float_2f (x : spec_float) : string :=
  match x with
  | S754_zero s => if s then "-0.00" else "0.00"
  | S754_infinity s => if s then "-inf" else "inf"
  | S754_nan => "nan"
  | S754_finite s m e => format_2f (Q_of_finite s m e)
  end.

(** ** The table *)

Module movies.

(** One row of
    [CREATE TABLE movies (id INTEGER PRIMARY KEY AUTOINCREMENT,
     title TEXT UNIQUE NOT NULL, year INTEGER NOT NULL,
     rating REAL NOT NULL, poster TEXT NOT NULL)]. *)
Record row : Type := mk_row {
  id : Z;
  title : string;
  year : Z;
  rating : Q;
  poster : string
}.

(** [SET rating = :rating] on one row. *)
Definition set_rating (new_rating : Q) (r : row) : row :=
  mk_row (id r) (title r) (year r) new_rating (poster r).

End movies.

(** The database file: the rows of [movies] and the largest rowid the
    table ever held (SQLite's [sqlite_sequence] entry for the table). *)
Record database : Type := mk_database {
  rows : list movies.row;
  sqlite_sequence : Z
}.

Definition titles (db : database) : list string := map movies.title (rows db).

(** [CREATE TABLE IF NOT EXISTS]: a fresh file gets the empty table, an
    existing one is kept as it is. *)
Definition empty_database : database := mk_database [] 0.

Definition create_table_if_not_exists (file : option database) : database :=
  match file with
  | Some db => db
  | None => empty_database
  end.

(** ** The SQL statements of the module *)

Inductive statement : Type :=
| SELECT_title_year_rating_poster
| INSERT_INTO_movies (title : string) (year : Z) (rating : Q) (poster : string)
| DELETE_WHERE_LOWER_title (key : string)
| UPDATE_SET_rating_WHERE_LOWER_title (rating : Q) (key : string)
| SELECT_rating.

(** What [conn.execute] raises for an INSERT: [OverflowError] when the
    driver cannot bind a Python [int] to a 64-bit SQLite INTEGER,
    [IntegrityError] when the engine reports a violated constraint. *)
Inductive exception : Type :=
| OverflowError
| IntegrityError.

(** The integers the driver can bind: those of the signed 64-bit range. *)
Definition fits_INTEGER (z : Z) : bool := (- 2 ^ 63 <=? z) && (z <? 2 ^ 63).

(** [WHERE LOWER(title) = :title] *)
Definition lower_title_is (key : string) (r : movies.row) : bool :=
  String.eqb (sql_lower (movies.title r)) key.

(** INSERT: the parameters are bound first, and a [year] outside the
    64-bit range fails there, before the engine sees the statement.  The
    UNIQUE constraint on [title] compares the text exactly (the column
    has the default BINARY collation).  A new row gets the next rowid and
    goes to the end of the scan order. *)
Definition sql_insert (title : string) (year : Z) (rating : Q) (poster : string)
    (db : database) : exception + database :=
  if negb (fits_INTEGER year) then inl OverflowError
  else if existsb (fun r => String.eqb (movies.title r) title) (rows db)
  then inl IntegrityError
  else
    let new_id := sqlite_sequence db + 1 in
    inr (mk_database (rows db ++ [movies.mk_row new_id title year rating poster])
                     new_id).

(** DELETE: removes every row the WHERE clause selects; the row count is
    the number of rows removed. *)
Definition sql_delete (key : string) (db : database) : Z * database :=
  (Z.of_nat (List.length (filter (lower_title_is key) (rows db))),
   mk_database (filter (fun r => negb (lower_title_is key r)) (rows db))
               (sqlite_sequence db)).

(** UPDATE: sets the rating of every row the WHERE clause selects; the
    row count is the number of rows selected. *)
Definition sql_update (rating : Q) (key : string) (db : database) : Z * database :=
  (Z.of_nat (List.length (filter (lower_title_is key) (rows db))),
   mk_database
     (map (fun r => if lower_title_is key r then movies.set_rating rating r else r)
          (rows db))
     (sqlite_sequence db)).

(** ** The monad of the operations *)

Record outcome (A : Type) : Type := mk_outcome {
  returned : A;
  db_after : database;
  printed : list string;
  executed : list statement
}.
Arguments mk_outcome {A} _ _ _ _.
Arguments returned {A} _.
Arguments db_after {A} _.
Arguments printed {A} _.
Arguments executed {A} _.

Definition M (A : Type) : Type := database -> outcome A.

Definition ret {A : Type} (a : A) : M A :=
  fun db => mk_outcome a db [] [].

Definition bind {A B : Type} (m : M A) (k : A -> M B) : M B :=
  fun db =>
    let o1 := m db in
    let o2 := k (returned o1) (db_after o1) in
    mk_outcome (returned o2) (db_after o2)
               (printed o1 ++ printed o2) (executed o1 ++ executed o2).

Declare Scope store_scope.
Delimit Scope store_scope with store.
Notation "x <- m ;; k" := (bind m (fun x => k))
  (at level 61, m at next level, right associativity) : store_scope.
Notation "m ;; k" := (bind m (fun _ => k))
  (at level 61, right associativity) : store_scope.
Local Open Scope store_scope.

Definition print (line : string) : M unit :=
  fun db => mk_outcome tt db [line] [].

(** [conn.execute(text(...))] for each statement of the module. *)
Definition tuple_of_row (r : movies.row) : string * Z * Q * string :=
  (movies.title r, movies.year r, movies.rating r, movies.poster r).

Definition execute_select_movies : M (list (string * Z * Q * string)) :=
  fun db =>
    mk_outcome (map tuple_of_row (rows db)) db [] [SELECT_title_year_rating_poster].

Definition execute_select_rating : M (list Q) :=
  fun db => mk_outcome (map movies.rating (rows db)) db [] [SELECT_rating].

Definition execute_insert (title : string) (year : Z) (rating : Q) (poster : string)
    : M (exception + unit) :=
  fun db =>
    match sql_insert title year rating poster db with
    | inl e => mk_outcome (inl e) db [] [INSERT_INTO_movies title year rating poster]
    | inr db' => mk_outcome (inr tt) db' [] [INSERT_INTO_movies title year rating poster]
    end.

Definition execute_delete (key : string) : M Z :=
  fun db =>
    let (rowcount, db') := sql_delete key db in
    mk_outcome rowcount db' [] [DELETE_WHERE_LOWER_title key].

Definition execute_update (rating : Q) (key : string) : M Z :=
  fun db =>
    let (rowcount, db') := sql_update rating key db in
    mk_outcome rowcount db' [] [UPDATE_SET_rating_WHERE_LOWER_title rating key].


(** ** Python dictionaries with text keys *)

(** A [dict] keeps its keys in insertion order; assigning to a key that
    is already there replaces the value in place. *)
Definition dict (V : Type) : Type := list (string * V).

Fixpoint dict_set {V : Type} (k : string) (v : V) (d : dict V) : dict V :=
  match d with
  | [] => [(k, v)]
  | (k', v') :: d' =>
      if String.eqb k' k then (k', v) :: d' else (k', v') :: dict_set k v d'
  end.

Fixpoint dict_get {V : Type} (k : string) (d : dict V) : option V :=
  match d with
  | [] => None
  | (k', v') :: d' => if String.eqb k' k then Some v' else dict_get k d'
  end.

Definition keys {V : Type} (d : dict V) : list string := map fst d.

Module entry.

(** The value [{"year": ..., "rating": ..., "poster": ...}] of one title. *)
Record t : Type := mk {
  year : Z;
  rating : Q;
  poster : string
}.

End entry.

(** ** The operations of the store *)

Section Store.

(** Python's [str.lower].  It folds letters of every alphabet; the case
    table of Unicode is not reproduced here, so the operations are
    defined for any such function, and [str_lower_ascii_spec] below says
    what the theorems about letter case need of it. *)
Variable str_lower : string -> string.

(** On text of the 7-bit range [str.lower] folds A-Z, as [LOWER] does. *)
Definition str_lower_ascii_spec : Prop :=
  forall s, is_ascii s = true -> str_lower s = sql_lower s.

(** [{r[0]: {"year": r[1], "rating": r[2], "poster": r[3]} for r in rows}] *)
Definition dict_of_rows (fetched : list (string * Z * Q * string)) : dict entry.t :=
  fold_left
    (fun d r => let '(r0, r1, r2, r3) := r in dict_set r0 (entry.mk r1 r2 r3) d)
    fetched [].

Definition get_movies : M (dict entry.t) :=
  fetched <- execute_select_movies ;;
  ret (dict_of_rows fetched).

Definition add_movie (title : string) (year : Z) (rating : Q) (poster : string)
    : M bool :=
  res <- execute_insert title year rating poster ;;
  match res with
  | inr _ => ret true
  | inl IntegrityError =>
      print ("Movie '" ++ title ++ "' already exists.") ;;
      ret false
  | inl OverflowError =>
      print ("Unexpected error while adding '" ++ title ++ "': "
             ++ "Python int too large to convert to SQLite INTEGER") ;;
      ret false
  end.

(** [bool(result.rowcount and result.rowcount > 0)] *)
Definition something_changed (rowcount : Z) : bool :=
  if rowcount =? 0 then false else 0 <? rowcount.

Definition delete_movie (title : string) : M bool :=
  rowcount <- execute_delete (str_lower title) ;;
  ret (something_changed rowcount).

Definition update_movie (title : string) (rating : option Q) : M bool :=
  match rating with
  | None => ret false
  | Some rating =>
      rowcount <- execute_update rating (str_lower title) ;;
      ret (something_changed rowcount)
  end.

Definition stats_of_movies : M unit :=
  fetched <- execute_select_rating ;;
  let ratings := map float_of_Q fetched in
  match ratings with
  | [] => print "No movies in database."
  | first :: rest =>
      let count := List.length ratings in
      let min_r := py_min first rest in
      let max_r := py_max first rest in
      let avg_r := float_truediv (py_sum ratings) (float_of_int (Z.of_nat count)) in
      print ("Movies: " ++ str_of_Z (Z.of_nat count) ++ " | "
             ++ "Min rating: " ++ format_float_2f min_r ++ " | "
             ++ "Max rating: " ++ format_float_2f max_r ++ " | "
             ++ "Avg rating: " ++ format_float_2f avg_r)
  end.

(** *** The caller of [add_movie] *)

(** The lookup client, an external collaborator: for a title it returns
    [(year, rating, poster_url, fetched_title)] or nothing.  The client
    hands year and rating over as text; they are taken here as the
    numbers that SQLite's column affinity makes of numeric text, and a
    year or rating that is not such text is outside this model.  The
    lines the client prints itself (the tuple it found, or that nothing
    was found) and the errors it may raise are not part of it either:
    [printed] holds the lines of the commands and of the store. *)
Variable fetch_movie_data :
  string -> option (option Z * option Q * option string * string).

(** [str] of a rating, as an f-string prints it. *)
Variable str_of_float : Q -> string.

(** [command_add_movie], from the point where the line typed by the user
    has been read and stripped ([title_input]). *)
Definition command_add_movie (title_input : string) : M unit :=
  movies <- get_movies ;;
  if String.eqb title_input EmptyString then print "Title cannot be empty."
  else
    let lower_titles := map str_lower (keys movies) in
    if existsb (String.eqb (str_lower title_input)) lower_titles
    then print ("Movie already exists as '" ++ title_input ++ "'.")
    else
      match fetch_movie_data title_input with
      | None => ret tt
      | Some (year, rating, poster_url, fetched_title) =>
          let year := match year with None => 0 | Some y => y end in
          let rating := match rating with None => 0%Q | Some r => r end in
          let poster_url :=
            match poster_url with None => EmptyString | Some u => u end in
          success <- add_movie fetched_title year rating poster_url ;;
          if success
          then print ("Added '" ++ fetched_title ++ "' with rating "
                      ++ str_of_float rating ++ ", year " ++ str_of_Z year)
          else print "Failed to add movie. Please try again."
      end.

(** *** Reachable states *)

(** One call of the store's interface. *)
Inductive call : Type :=
| call_get_movies
| call_add_movie (title : string) (year : Z) (rating : Q) (poster : string)
| call_delete_movie (title : string)
| call_update_movie (title : string) (rating : option Q)
| call_stats_of_movies.

Definition run (c : call) (db : database) : database :=
  match c with
  | call_get_movies => db_after (get_movies db)
  | call_add_movie title year rating poster =>
      db_after (add_movie title year rating poster db)
  | call_delete_movie title => db_after (delete_movie title db)
  | call_update_movie title rating => db_after (update_movie title rating db)
  | call_stats_of_movies => db_after (stats_of_movies db)
  end.

(** The states the program can be in: the fresh table, and whatever a
    call makes of a reachable state. *)
Inductive reachable : database -> Prop :=
| reachable_fresh : reachable (create_table_if_not_exists None)
| reachable_run (c : call) (db : database) :
    reachable db -> reachable (run c db).

(** A sequence of [add_movie] calls. *)
Definition add_all (calls : list (string * Z * Q * string)) (db : database)
    : database :=
  fold_left
    (fun db c => let '(title, year, rating, poster) := c in
                 db_after (add_movie title year rating poster db))
    calls db.

End Store.

(** [str.lower] on text of the 7-bit range, where it folds A-Z and
    nothing else. *)
Definition str_lower_7bit : string -> string := sql_lower.

(** ** Notions the properties are stated with *)

(** The dictionary value [get_movies] gives for a row. *)
Definition entry_of_row (r : movies.row) : entry.t :=
  entry.mk (movies.year r) (movies.rating r) (movies.poster r).

(** Two titles that differ at most in the case of the letters A-Z. *)
Definition same_up_to_case (a b : string) : Prop := sql_lower a = sql_lower b.

(** What [delete_movie] and [update_movie] compare: the stored title
    folded by [LOWER] against the argument folded by [str.lower]. *)
Definition matches (str_lower : string -> string) (title : string)
    (r : movies.row) : Prop :=
  sql_lower (movies.title r) = str_lower title.

(** A row before and after an UPDATE of the rating: everything but the
    rating is as before, and the rating is the new one exactly when the
    row was selected. *)
Definition updated_where (selected : movies.row -> Prop) (new_rating : Q)
    (r r' : movies.row) : Prop :=
  movies.id r' = movies.id r /\
  movies.title r' = movies.title r /\
  movies.year r' = movies.year r /\
  movies.poster r' = movies.poster r /\
  ((selected r /\ movies.rating r' = new_rating) \/
   (~ selected r /\ movies.rating r' = movies.rating r)).

(** No two stored titles are equal up to case. *)
Definition unique_up_to_case (db : database) : Prop :=
  NoDup (map sql_lower (titles db)).








(** The mean of the exact values, for comparison. *)
Definition exact_mean (l : list Q) : Q :=
  (fold_right Qplus 0 l / inject_Z (Z.of_nat (List.length l)))%Q.


(** *** The scenario of the two Gladiators *)

Definition db_gladiator : database :=
  db_after (add_movie "Gladiator" 2000 8.5 "http://..." empty_database).

Definition db_two_gladiators : database :=
  db_after (add_movie "gladiator" 2001 5.0 "x" db_gladiator).

(** *** Statements of the specification that the code does not meet *)

(** "The second add fails and list_all still returns exactly one entry,
    for Gladiator, with year 2000 and rating 8.5." *)
Definition second_add_collides : Prop :=
  returned (add_movie "gladiator" 2001 5.0 "x" db_gladiator) = false /\
  returned (get_movies (db_after (add_movie "gladiator" 2001 5.0 "x" db_gladiator)))
  = [("Gladiator", entry.mk 2000 8.5 "http://...")].

(** "For a store containing no record with empty title, add with the
    empty title returns true and a record whose title is the empty
    string becomes visible to list_all", whatever the year, the rating
    and the poster. *)
Definition empty_title_always_accepted : Prop :=
  forall (db : database) (year : Z) (rating : Q) (poster : string),
    ~ In EmptyString (titles db) ->
    returned (add_movie EmptyString year rating poster db) = true /\
    dict_get EmptyString
      (returned (get_movies (db_after (add_movie EmptyString year rating poster db))))
    = Some (entry.mk year rating poster).

(** "delete removes at most one record." *)
Definition delete_removes_at_most_one (str_lower : string -> string)
    (title : string) (db : database) : Prop :=
  (List.length (rows db)
   - List.length (rows (db_after (delete_movie str_lower title db))) <= 1)%nat.

(** "If the store holds a record whose title equals the argument up to
    case, update_rating returns true, sets that record's rating and
    leaves every other record unchanged." *)
Definition update_touches_one_record (str_lower : string -> string)
    (title : string) (new_rating : Q) (db : database) : Prop :=
  forall r, In r (rows db) -> same_up_to_case (movies.title r) title ->
    returned (update_movie str_lower title (Some new_rating) db) = true /\
    In (movies.set_rating new_rating r)
       (rows (db_after (update_movie str_lower title (Some new_rating) db))) /\
    forall r', In r' (rows db) -> r' <> r ->
      In r' (rows (db_after (update_movie str_lower title (Some new_rating) db))).



(** ** Further notions *)

(** Rowids as AUTOINCREMENT hands them out: positive, strictly growing
    along the scan, and none above the counter. *)
Definition rowids_in_order (db : database) : Prop :=
  StronglySorted Z.lt (map movies.id (rows db)) /\
  Forall (fun i => 0 < i <= sqlite_sequence db) (map movies.id (rows db)) /\
  0 <= sqlite_sequence db.

(** The entry of a title with another rating. *)
Definition with_rating (new_rating : Q) (e : entry.t) : entry.t :=
  entry.mk (entry.year e) new_rating (entry.poster e).

(** Equality of two titles up to the case of A-Z, as a test. *)
Definition same_up_to_case_b (a b : string) : bool :=
  String.eqb (sql_lower a) (sql_lower b).

(** The row stored under a title, as a test on rows. *)
Definition row_titled (k : string) (r : movies.row) : bool :=
  String.eqb (movies.title r) k.

(** ** The commands of the menu *)

(** The commands of [main.py] talk to the user.  What they print with
    [print] goes to the log of printed lines; the prompts that [input]
    writes are not recorded.  A command that reads one line takes that
    line as its argument; the ones that may read more take the lines
    still to come and give back the ones they left.  The lookup client,
    the random generator and the conversions of Python ([str.lower],
    [str.strip], [int], [float], [str] of a rating) are parameters. *)

(** The line feed and the double quote, for the texts that hold them. *)
Definition LF : string := String (ascii_of_N 10) EmptyString.
Definition DQUOTE : string := String (ascii_of_N 34) EmptyString.

(** [s.startswith(start)] *)
Fixpoint starts_with (start s : string) : bool :=
  match start with
  | EmptyString => true
  | String a start' =>
      match s with
      | EmptyString => false
      | String b s' => Ascii.eqb a b && starts_with start' s'
      end
  end.

(** [needle in hay] on text. *)
Fixpoint contains (needle hay : string) : bool :=
  starts_with needle hay
  || match hay with
     | EmptyString => false
     | String _ hay' => contains needle hay'
     end.

(** A [for] loop whose body prints. *)
Fixpoint for_each {A : Type} (body : A -> M unit) (l : list A) : M unit :=
  match l with
  | [] => ret tt
  | x :: l' => body x ;; for_each body l'
  end.

(** [sorted(items, key=..., reverse=True)] on the items of the
    dictionary, with the rating as key.  The sort is stable, also in
    reverse: items with equal keys keep their order.  A stable sort has
    one possible result, computed here by insertion: an item goes in
    front of the first item that is not strictly greater. *)
Fixpoint insert_by_rating (x : string * entry.t) (l : list (string * entry.t))
    : list (string * entry.t) :=
  match l with
  | [] => [x]
  | y :: l' =>
      if Qlt_bool (entry.rating (snd x)) (entry.rating (snd y))
      then y :: insert_by_rating x l'
      else x :: y :: l'
  end.

Definition sorted_by_rating_reverse (items : list (string * entry.t))
    : list (string * entry.t) :=
  fold_right insert_by_rating [] items.

Section Commands.

Variable str_lower : string -> string.

(** [str] of a rating, as an f-string prints it. *)
Variable str_of_float : Q -> string.

(** [float(text)]; [None] stands for the ValueError.  Ratings being
    rationals, a text that [float] reads as infinite or as no number at
    all is outside the model. *)
Variable parse_float : string -> option Q.

(** [f"{title}: Rating {data.get('rating')}, Year {data.get('year')}"] *)
Definition movie_line (item : string * entry.t) : string :=
  fst item ++ ": Rating " ++ str_of_float (entry.rating (snd item))
  ++ ", Year " ++ str_of_Z (entry.year (snd item)).

Definition command_list_movies : M unit :=
  movies <- get_movies ;;
  match movies with
  | [] => print "No movies in database."
  | _ =>
      print (LF ++ str_of_Z (Z.of_nat (List.length movies)) ++ " movies in total:") ;;
      for_each (fun item => print (movie_line item)) movies
  end.

(** [command_delete_movie], from the point where the line typed by the
    user has been read and stripped ([title]). *)
Definition command_delete_movie (title : string) : M unit :=
  if String.eqb title EmptyString then print "Title cannot be empty."
  else
    success <- delete_movie str_lower title ;;
    if success then print ("Movie '" ++ title ++ "' deleted.")
    else print "Movie not found or could not be deleted.".

(** The loop that asks for the new rating until [float] accepts a line.
    [lines] are the lines still to come on the console; the result is the
    rating with the lines left over, or nothing when the console ends
    first (the EOFError of [input], which nothing catches). *)
Fixpoint input_new_rating (lines : list string) : M (option (Q * list string)) :=
  match lines with
  | [] => ret None
  | line :: rest =>
      match parse_float line with
      | Some new_rating => ret (Some (new_rating, rest))
      | None =>
          print "Invalid input. Please enter a number for rating." ;;
          input_new_rating rest
      end
  end.

(** [command_update_movie], from the point where the title has been read
    and stripped.  It returns the lines it has not read, or nothing when
    it ended in the EOFError. *)
Definition command_update_movie (title : string) (lines : list string)
    : M (option (list string)) :=
  if String.eqb title EmptyString
  then print "Title cannot be empty." ;; ret (Some lines)
  else
    answer <- input_new_rating lines ;;
    match answer with
    | None => ret None
    | Some (new_rating, rest) =>
        success <- update_movie str_lower title (Some new_rating) ;;
        (if success
         then print ("Updated '" ++ title ++ "' with rating " ++ str_of_float new_rating)
         else print "Movie not found or update failed.") ;;
        ret (Some rest)
    end.

Definition command_stats_of_movies : M unit := stats_of_movies.

(** [command_random_movie]; [draw] is the number the generator gives,
    of which [random.choice] uses an index below the number of items. *)
Definition command_random_movie (draw : nat) : M unit :=
  movies <- get_movies ;;
  match movies with
  | [] => print "No movies in database."
  | first :: _ =>
      let item := nth (draw mod List.length movies) movies first in
      print ("Tonight's movie: " ++ fst item
             ++ " (Rating: " ++ str_of_float (entry.rating (snd item))
             ++ ", Year " ++ str_of_Z (entry.year (snd item)) ++ ")")
  end.

(** [command_search_movie]; [typed] is the line typed at the prompt,
    stripped.  The prompt comes only when the store is not empty. *)
Definition command_search_movie (typed : string) : M unit :=
  movies <- get_movies ;;
  match movies with
  | [] => print "No movies in database."
  | _ =>
      let query := str_lower typed in
      if String.eqb query EmptyString then print "Search text cannot be empty."
      else
        let found := filter (fun item => contains query (str_lower (fst item))) movies in
        match found with
        | [] => print ("No matching movies found for '" ++ query ++ "'.")
        | _ => for_each (fun item => print (movie_line item)) found
        end
  end.

Definition command_ranking_of_movies : M unit :=
  movies <- get_movies ;;
  match movies with
  | [] => print "No movies in database."
  | _ =>
      print (LF ++ "Movies sorted by rating:") ;;
      for_each (fun item => print (movie_line item)) (sorted_by_rating_reverse movies)
  end.

End Commands.

(** ** The page generator *)

(** [html.escape(s)], with quotes: the five characters that carry markup
    become entities, every other character stays. *)
Definition escape_char (c : ascii) : string :=
  if Ascii.eqb c "&" then "&amp;"
  else if Ascii.eqb c "<" then "&lt;"
  else if Ascii.eqb c ">" then "&gt;"
  else if Ascii.eqb c (ascii_of_N 34) then "&quot;"
  else if Ascii.eqb c "'" then "&#x27;"
  else String c EmptyString.

Fixpoint escape (s : string) : string :=
  match s with
  | EmptyString => EmptyString
  | String c s' => escape_char c ++ escape s'
  end.

(** How often a character occurs in a text. *)
Fixpoint count_char (c : ascii) (s : string) : nat :=
  match s with
  | EmptyString => O
  | String c' s' => (if Ascii.eqb c' c then 1 else 0) + count_char c s'
  end.

(** [poster_url or "N/A"] *)
Definition or_NA (poster_url : string) : string :=
  if String.eqb poster_url EmptyString then "N/A" else poster_url.

Definition _movie_li (title : string) (year : Z) (poster_url : string) : string :=
  let safe_title := escape title in
  let safe_year := escape (str_of_Z year) in
  let safe_poster := escape (or_NA poster_url) in
  "<li>"
  ++ "<div class='movie'>"
  ++ "<img class='movie-poster' src='" ++ safe_poster ++ "' "
  ++ "alt='Poster image not available.'/>"
  ++ "<div class='movie-title'>" ++ safe_title ++ "</div>"
  ++ "<div class='movie-year'>" ++ safe_year ++ "</div>"
  ++ "</div>"
  ++ "</li>".

Definition _build_movie_grid (movies_dict : dict entry.t) : string :=
  String.concat EmptyString
    (map (fun item =>
            let year := entry.year (snd item) in
            let poster := or_NA (entry.poster (snd item)) in
            _movie_li (fst item) year poster)
         movies_dict).

Definition TEMPLATE_DEFAULT : string :=
  "<!doctype html>" ++ LF
  ++ "<html>" ++ LF
  ++ "<head>" ++ LF
  ++ "    <meta charset=" ++ DQUOTE ++ "utf-8" ++ DQUOTE ++ "/>" ++ LF
  ++ "    <title>My Movie App</title>" ++ LF
  ++ "    <link rel=" ++ DQUOTE ++ "stylesheet" ++ DQUOTE
  ++ " href=" ++ DQUOTE ++ "style.css" ++ DQUOTE ++ "/>" ++ LF
  ++ "</head>" ++ LF
  ++ "<body>" ++ LF
  ++ "<div class=" ++ DQUOTE ++ "list-movies-title" ++ DQUOTE ++ ">" ++ LF
  ++ "    <h1>__TEMPLATE_TITLE__</h1>" ++ LF
  ++ "</div>" ++ LF
  ++ "<div>" ++ LF
  ++ "    <ol class=" ++ DQUOTE ++ "movie-grid" ++ DQUOTE ++ ">" ++ LF
  ++ "        __TEMPLATE_MOVIE_GRID__" ++ LF
  ++ "    </ol>" ++ LF
  ++ "</div>" ++ LF
  ++ "</body>" ++ LF
  ++ "</html>" ++ LF.

(** [s.replace(old, new)]: the occurrences of [old] are found from left
    to right and do not overlap; [skip] counts the characters of an
    occurrence still to pass over.  For the empty [old], [new] goes
    before every character and at the end. *)
Fixpoint replace_from (old new : string) (skip : nat) (s : string) : string :=
  match s with
  | EmptyString => EmptyString
  | String c s' =>
      match skip with
      | S k => replace_from old new k s'
      | O =>
          if starts_with old s
          then new ++ replace_from old new (String.length old - 1) s'
          else String c (replace_from old new 0 s')
      end
  end.

Fixpoint replace_empty (new s : string) : string :=
  match s with
  | EmptyString => new
  | String c s' => new ++ String c (replace_empty new s')
  end.

Definition replace (old new s : string) : string :=
  match old with
  | EmptyString => replace_empty new s
  | _ => replace_from old new 0 s
  end.

Definition render_website_html (title template_str : string)
    (movies_dict : dict entry.t) : string :=
  let grid_html := _build_movie_grid movies_dict in
  replace "__TEMPLATE_MOVIE_GRID__" grid_html
    (replace "__TEMPLATE_TITLE__" (escape title) template_str).

(** [f.read()] on a file opened with mode ["r"]: the line ends CR LF and
    CR come out as LF. *)
Fixpoint universal_newlines (s : string) : string :=
  match s with
  | EmptyString => EmptyString
  | String c s' =>
      if Ascii.eqb c (ascii_of_N 13)
      then
        match s' with
        | EmptyString => LF
        | String c' s'' =>
            if Ascii.eqb c' (ascii_of_N 10)
            then String (ascii_of_N 10) (universal_newlines s'')
            else String (ascii_of_N 10) (universal_newlines s')
        end
      else String c (universal_newlines s')
  end.

Section Website.

(** The directory of [website_gen.py], where the page goes by default. *)
Variable base_dir : string.

(** The text files on disk, by path, each with the text it holds.  A
    path names one file: two paths that differ as text are taken to name
    different files.  Directories are not modelled, and the SQLite file
    is not among these files: what it holds is the [database] the
    operations thread (see [file_at] below). *)
Definition files : Type := dict string.

(** [_load_template_str]: the built-in template when no path is given,
    the text of the file otherwise, read in text mode; nothing when the
    file is not there (the error of [open], which nothing catches). *)
Definition _load_template_str (template_path : option string) (disk : files)
    : option string :=
  match template_path with
  | None => Some TEMPLATE_DEFAULT
  | Some path =>
      if String.eqb path EmptyString then Some TEMPLATE_DEFAULT
      else option_map universal_newlines (dict_get path disk)
  end.

(** [generate_website]: the result is the disk after the call, or
    nothing when the call ended in the error of [open].  The page is
    written as it is (no translation of line ends, as on POSIX). *)
Definition generate_website (title : string) (template_path output_path : option string)
    (disk : files) : M (option files) :=
  match _load_template_str template_path disk with
  | None => ret None
  | Some template_str =>
      movies <- get_movies ;;
      let html := render_website_html title template_str movies in
      let out_path :=
        match output_path with
        | None => base_dir ++ "/index.html"
        | Some path =>
            if String.eqb path EmptyString then base_dir ++ "/index.html" else path
        end in
      print "Website was generated successfully." ;;
      ret (Some (dict_set out_path html disk))
  end.

Definition command_generate_website (disk : files) : M (option files) :=
  generate_website "MY MOVIE APP" None None disk.

End Website.



(** ** The menu loop *)

Definition MENU_OPTIONS : list string :=
  ["Exit"; "List movies"; "Add movie"; "Delete movie"; "Update movie";
   "Stats"; "Random movie"; "Search movie"; "Movies sorted by rating";
   "Generate website"].

(** [enumerate(menu_options)] turned into the lines [f"{idx}. {label}"]. *)
Fixpoint menu_lines (idx : nat) (menu_options : list string) : list string :=
  match menu_options with
  | [] => []
  | label :: more =>
      (str_of_Z (Z.of_nat idx) ++ ". " ++ label) :: menu_lines (S idx) more
  end.

Definition print_menu (menu_options : list string) : M string :=
  print (LF ++ "********** WELCOME TO MY MOVIE DATABASE **********" ++ LF) ;;
  ret (String.concat LF ("MENU:" :: menu_lines 0 menu_options) ++ LF).

(** What the program has besides the database: the lines still to come
    on the console and the text files on disk (the SQLite file is the
    [database] of the monad, not one of [disk]). *)
Record console : Type := mk_console {
  stdin : list string;
  disk : files
}.

(** How [main] ends here: it returns, or the console ends while [input]
    waits for a line (the EOFError, which nothing catches).  An error
    raised inside the lookup client is outside this model. *)
Inductive ending : Type := Returned | EOFError.

Section Main.

Variable str_lower : string -> string.
Variable str_of_float : Q -> string.
Variable parse_float : string -> option Q.

(** [str.strip] and [int(text)]; [None] stands for the ValueError. *)
Variable str_strip : string -> string.
Variable parse_int : string -> option Z.

Variable fetch_movie_data :
  string -> option (option Z * option Q * option string * string).
Variable base_dir : string.

(** What the random generator gives in each round of the loop. *)
Variable draw : nat -> nat.

Definition command_exit_program : M unit :=
  print ("Bye!" ++ LF ++ "********** END OF PROGRAM **********").

(** One entry of the dispatcher, with the lines it reads taken from the
    console.  The result is the console afterwards and the value of
    RUN_PROGRAM, or nothing when the command ended in the EOFError.
    The search asks for its line only when the store is not empty.  The
    page generator is called without a template path, so it cannot end
    in the error of [open]. *)
Definition action (user_choice : Z) (round : nat) (con : console)
    : M (option (console * bool)) :=
  match user_choice with
  | 0 => command_exit_program ;; ret (Some (con, false))
  | 1 => command_list_movies str_of_float ;; ret (Some (con, true))
  | 2 =>
      match stdin con with
      | [] => get_movies ;; ret None
      | line :: rest =>
          command_add_movie str_lower fetch_movie_data str_of_float (str_strip line) ;;
          ret (Some (mk_console rest (disk con), true))
      end
  | 3 =>
      match stdin con with
      | [] => ret None
      | line :: rest =>
          command_delete_movie str_lower (str_strip line) ;;
          ret (Some (mk_console rest (disk con), true))
      end
  | 4 =>
      match stdin con with
      | [] => ret None
      | line :: rest =>
          left_over <- command_update_movie str_lower str_of_float parse_float
                                            (str_strip line) rest ;;
          match left_over with
          | None => ret None
          | Some rest' => ret (Some (mk_console rest' (disk con), true))
          end
      end
  | 5 => command_stats_of_movies ;; ret (Some (con, true))
  | 6 => command_random_movie str_of_float (draw round) ;; ret (Some (con, true))
  | 7 =>
      fun db =>
        match rows db, stdin con with
        | [], _ =>
            (command_search_movie str_lower str_of_float EmptyString ;;
             ret (Some (con, true))) db
        | _, [] => (get_movies ;; ret None) db
        | _, line :: rest =>
            (command_search_movie str_lower str_of_float (str_strip line) ;;
             ret (Some (mk_console rest (disk con), true))) db
        end
  | 8 => command_ranking_of_movies str_of_float ;; ret (Some (con, true))
  | 9 =>
      written <- command_generate_website base_dir (disk con) ;;
      match written with
      | None => ret None
      | Some disk' => ret (Some (mk_console (stdin con) disk', true))
      end
  | _ => ret (Some (con, true))
  end.

Definition in_dispatcher (user_choice : Z) : bool :=
  (0 <=? user_choice) && (user_choice <=? 9).

(** One round of the loop of [main], from the menu on; [next] is the
    rest of the loop, entered with the new value of [loop_count]. *)
Definition read_choice (next : nat -> console -> M (option (ending * console)))
    (round loop_count : nat) (con : console) : M (option (ending * console)) :=
  menu <- print_menu MENU_OPTIONS ;;
  print menu ;;
  match stdin con with
  | [] => ret (Some (EOFError, con))
  | line :: rest =>
      let con := mk_console rest (disk con) in
      match parse_int (str_strip line) with
      | None =>
          print (LF ++ "Invalid input. Please type a number." ++ LF) ;;
          next (S loop_count) con
      | Some user_choice =>
          if in_dispatcher user_choice
          then
            done <- action user_choice round con ;;
            match done with
            | None => ret (Some (EOFError, mk_console [] (disk con)))
            | Some (con', RUN_PROGRAM) =>
                if RUN_PROGRAM then next (S loop_count) con'
                else ret (Some (Returned, con'))
            end
          else
            print (LF ++ "Invalid choice. Please enter a number between "
                   ++ "0 and 9." ++ LF) ;;
            next loop_count con
      end
  end.

(** One round, with the pause that comes before every round but the
    first. *)
Definition one_round (next : nat -> console -> M (option (ending * console)))
    (round loop_count : nat) (con : console) : M (option (ending * console)) :=
  if (1 <=? loop_count)%nat
  then
    match stdin con with
    | [] => ret (Some (EOFError, con))
    | _ :: rest => read_choice next round loop_count (mk_console rest (disk con))
    end
  else read_choice next round loop_count con.

(** The loop of [main].  Every round reads at least the line of the
    choice, so the rounds are bounded by the lines to come; [fuel] is
    that bound, and the result is nothing only when it ran out. *)
Fixpoint main_loop (fuel round loop_count : nat) (con : console)
    : M (option (ending * console)) :=
  match fuel with
  | O => ret None
  | S fuel' => one_round (main_loop fuel' (S round)) round loop_count con
  end.

Definition main (con : console) : M (option (ending * console)) :=
  main_loop (S (List.length (stdin con))) 0 0 con.

End Main.

(** ** Properties *)

(** *** The constraint check of INSERT *)

Lemma title_exists_iff (title : string) (l : list movies.row) :
  existsb (fun r => String.eqb (movies.title r) title) l = true
  <-> In title (map movies.title l).
Proof.
  rewrite existsb_exists, in_map_iff. split.
  - intros [r [Hin Heq]]. apply String.eqb_eq in Heq. now exists r.
  - intros [r [Heq Hin]]. exists r. split; [assumption|].
    now apply String.eqb_eq.
Qed.

Lemma add_movie_duplicate (title : string) (year : Z) (rating : Q)
    (poster : string) (db : database) :
  fits_INTEGER year = true ->
  In title (titles db) ->
  add_movie title year rating poster db
  = mk_outcome false db ["Movie '" ++ title ++ "' already exists."]
               [INSERT_INTO_movies title year rating poster].
Proof.
  intros Hfit Hin. apply title_exists_iff in Hin.
  unfold add_movie, bind, execute_insert, sql_insert.
  rewrite Hfit, Hin. reflexivity.
Qed.

Lemma add_movie_overflow (title : string) (year : Z) (rating : Q)
    (poster : string) (db : database) :
  fits_INTEGER year = false ->
  add_movie title year rating poster db
  = mk_outcome false db
      ["Unexpected error while adding '" ++ title ++ "': "
       ++ "Python int too large to convert to SQLite INTEGER"]
      [INSERT_INTO_movies title year rating poster].
Proof.
  intros Hfit.
  unfold add_movie, bind, execute_insert, sql_insert.
  rewrite Hfit. reflexivity.
Qed.

Lemma add_movie_new (title : string) (year : Z) (rating : Q)
    (poster : string) (db : database) :
  fits_INTEGER year = true ->
  ~ In title (titles db) ->
  add_movie title year rating poster db
  = mk_outcome true
      (mk_database
         (rows db ++ [movies.mk_row (sqlite_sequence db + 1) title year rating poster])
         (sqlite_sequence db + 1))
      [] [INSERT_INTO_movies title year rating poster].
Proof.
  intros Hfit Hnin.
  unfold add_movie, bind, execute_insert, sql_insert.
  rewrite Hfit. cbn [negb].
  destruct (existsb _ (rows db)) eqn:E.
  - apply title_exists_iff in E. contradiction.
  - reflexivity.
Qed.

(** An [add_movie] either appends the row, or returns [False] and leaves
    the table as it is. *)
Lemma add_movie_accepts_or_refuses (title : string) (year : Z) (rating : Q)
    (poster : string) (db : database) :
  (fits_INTEGER year = true /\ ~ In title (titles db)) \/
  ((fits_INTEGER year = false \/ In title (titles db)) /\
   returned (add_movie title year rating poster db) = false /\
   db_after (add_movie title year rating poster db) = db /\
   executed (add_movie title year rating poster db)
   = [INSERT_INTO_movies title year rating poster]).
Proof.
  destruct (fits_INTEGER year) eqn:Hfit.
  - destruct (in_dec string_dec title (titles db)) as [Hin | Hnin].
    + right. rewrite add_movie_duplicate by assumption. simpl. tauto.
    + left. tauto.
  - right. rewrite add_movie_overflow by assumption. simpl. tauto.
Qed.

Lemma add_movie_returns_true_iff (title : string) (year : Z) (rating : Q)
    (poster : string) (db : database) :
  returned (add_movie title year rating poster db) = true
  <-> fits_INTEGER year = true /\ ~ In title (titles db).
Proof.
  destruct (add_movie_accepts_or_refuses title year rating poster db)
    as [[Hfit Hnin] | [Hwhy [Hret _]]].
  - rewrite add_movie_new by assumption. simpl. tauto.
  - rewrite Hret. split; [discriminate |].
    intros [Hfit Hnin]. destruct Hwhy as [Hwhy | Hwhy]; [congruence | contradiction].
Qed.

(** *** Titles stay pairwise different *)

Lemma titles_after_filter (keep : movies.row -> bool) (l : list movies.row) :
  NoDup (map movies.title l) -> NoDup (map movies.title (filter keep l)).
Proof.
  intros Hnd. induction l as [| a l IH]; simpl in *; [constructor |].
  inversion Hnd as [| x xs Hnotin Hrest]; subst.
  destruct (keep a); simpl; [| now apply IH].
  constructor; [| now apply IH].
  rewrite in_map_iff. intros [y [Hy Hiny]].
  apply filter_In in Hiny. apply Hnotin.
  rewrite <- Hy. apply in_map. tauto.
Qed.

Lemma NoDup_snoc {A : Type} (l : list A) (x : A) :
  NoDup l -> ~ In x l -> NoDup (l ++ [x]).
Proof.
  induction l as [| a l IH]; simpl; intros Hnd Hnin.
  - constructor; [tauto | constructor].
  - inversion Hnd as [| y ys Ha Hl]; subst.
    constructor.
    + rewrite in_app_iff. simpl. intros [H | [H | []]]; [tauto | subst; tauto].
    + apply IH; tauto.
Qed.

Lemma titles_after_update (rating : Q) (key : string) (l : list movies.row) :
  map movies.title
      (map (fun r => if lower_title_is key r then movies.set_rating rating r else r) l)
  = map movies.title l.
Proof.
  rewrite map_map. apply map_ext. intros r.
  now destruct (lower_title_is key r).
Qed.

Lemma titles_after_add (title : string) (year : Z) (rating : Q) (poster : string)
    (db : database) :
  NoDup (titles db) ->
  NoDup (titles (db_after (add_movie title year rating poster db))).
Proof.
  intros Hnd.
  destruct (add_movie_accepts_or_refuses title year rating poster db)
    as [[Hfit Hnin] | [_ [_ [Hdb _]]]].
  - rewrite add_movie_new by assumption. unfold titles. simpl.
    rewrite map_app. simpl. now apply NoDup_snoc.
  - now rewrite Hdb.
Qed.

Section Invariant.

Variable str_lower : string -> string.

Lemma titles_after_run (c : call) (db : database) :
  NoDup (titles db) -> NoDup (titles (run str_lower c db)).
Proof.
  intros Hnd. destruct c as [| t y r p | t | t [r |] |]; simpl.
  - exact Hnd.
  - now apply titles_after_add.
  - unfold titles. simpl. now apply titles_after_filter.
  - unfold titles. simpl. now rewrite titles_after_update.
  - exact Hnd.
  - unfold stats_of_movies, bind, execute_select_rating. simpl.
    now destruct (map movies.rating (rows db)).
Qed.

Lemma reachable_titles_unique (db : database) :
  reachable str_lower db -> NoDup (titles db).
Proof.
  induction 1 as [| c db Hreach IH].
  - constructor.
  - now apply titles_after_run.
Qed.

Lemma add_all_titles_unique (calls : list (string * Z * Q * string))
    (db : database) :
  NoDup (titles db) -> NoDup (titles (add_all calls db)).
Proof.
  revert db. induction calls as [| [[[t y] r] p] calls IH]; intros db Hnd.
  - exact Hnd.
  - simpl. apply IH. now apply titles_after_add.
Qed.

Lemma add_all_reachable (calls : list (string * Z * Q * string))
    (db : database) :
  reachable str_lower db -> reachable str_lower (add_all calls db).
Proof.
  revert db. induction calls as [| [[[t y] r] p] calls IH]; intros db Hr.
  - exact Hr.
  - simpl. apply IH.
    exact (reachable_run str_lower (call_add_movie t y r p) db Hr).
Qed.

End Invariant.

(** *** Dictionaries *)

Lemma dict_get_set_same {V : Type} (k : string) (v : V) (d : dict V) :
  dict_get k (dict_set k v d) = Some v.
Proof.
  induction d as [| [k' v'] d IH]; simpl.
  - now rewrite String.eqb_refl.
  - destruct (String.eqb k' k) eqn:E; simpl; rewrite E; [reflexivity | exact IH].
Qed.

Lemma dict_set_new {V : Type} (k : string) (v : V) (d : dict V) :
  ~ In k (keys d) -> dict_set k v d = (d ++ [(k, v)])%list.
Proof.
  induction d as [| [k' v'] d IH]; simpl; intros Hnin.
  - reflexivity.
  - destruct (String.eqb_spec k' k) as [-> | Hne].
    + tauto.
    + rewrite IH; tauto.
Qed.

Lemma dict_of_rows_snoc (fetched : list (string * Z * Q * string))
    (title : string) (year : Z) (rating : Q) (poster : string) :
  dict_of_rows (fetched ++ [(title, year, rating, poster)])
  = dict_set title (entry.mk year rating poster) (dict_of_rows fetched).
Proof.
  unfold dict_of_rows. now rewrite fold_left_app.
Qed.

Lemma dict_of_unique_rows (l : list movies.row) :
  NoDup (map movies.title l) ->
  dict_of_rows (map tuple_of_row l)
  = map (fun r => (movies.title r, entry_of_row r)) l.
Proof.
  induction l as [| r l IH] using rev_ind; intros Hnd.
  - reflexivity.
  - rewrite map_app in Hnd. simpl in Hnd.
    assert (Hl : NoDup (map movies.title l)) by now apply NoDup_app_remove_r in Hnd.
    assert (Hr : ~ In (movies.title r) (map movies.title l)).
    { apply NoDup_rev in Hnd. rewrite rev_app_distr in Hnd. simpl in Hnd.
      inversion Hnd; subst. now rewrite in_rev. }
    rewrite !map_app. simpl. unfold tuple_of_row at 2.
    rewrite dict_of_rows_snoc, (IH Hl), dict_set_new.
    + reflexivity.
    + unfold keys. now rewrite map_map.
Qed.

Lemma dict_get_unique (l : list movies.row) (r : movies.row) :
  NoDup (map movies.title l) -> In r l ->
  dict_get (movies.title r) (map (fun r => (movies.title r, entry_of_row r)) l)
  = Some (entry_of_row r).
Proof.
  induction l as [| a l IH]; simpl; intros Hnd Hin; [contradiction |].
  inversion Hnd as [| x xs Ha Hl]; subst.
  destruct Hin as [-> | Hin].
  - now rewrite String.eqb_refl.
  - destruct (String.eqb_spec (movies.title a) (movies.title r)) as [E | _].
    + exfalso. apply Ha. rewrite E. now apply in_map.
    + now apply IH.
Qed.

Lemma get_movies_run (db : database) :
  get_movies db
  = mk_outcome (dict_of_rows (map tuple_of_row (rows db))) db []
               [SELECT_title_year_rating_poster].
Proof. reflexivity. Qed.

(** *** The claims about [add_movie] and [get_movies] *)

(** C1.  Title uniqueness is an invariant of the store: from any
    reachable state, after any sequence of [add_movie] calls no two rows
    have the same title; and an [add_movie] with a title that a row
    already has returns [False] and leaves the store, hence the number of
    rows, as it was. *)
Theorem add_movie_keeps_titles_unique (str_lower : string -> string)
    (db : database) :
  reachable str_lower db ->
  (forall calls, NoDup (titles (add_all calls db))) /\
  (forall calls title year rating poster,
     let db' := add_all calls db in
     In title (titles db') ->
     returned (add_movie title year rating poster db') = false /\
     db_after (add_movie title year rating poster db') = db' /\
     List.length (rows (db_after (add_movie title year rating poster db')))
     = List.length (rows db')).
Proof.
  intros Hreach. split.
  - intros calls. apply add_all_titles_unique.
    exact (reachable_titles_unique str_lower db Hreach).
  - intros calls title year rating poster db' Hin.
    destruct (add_movie_accepts_or_refuses title year rating poster db')
      as [[_ Hnin] | [_ [Hret [Hdb _]]]]; [contradiction |].
    rewrite Hret, Hdb. auto.
Qed.

Lemma db_two_gladiators_reachable :
  reachable str_lower_7bit db_two_gladiators.
Proof.
  exact (reachable_run str_lower_7bit (call_add_movie "gladiator" 2001 5.0 "x") _
           (reachable_run str_lower_7bit
              (call_add_movie "Gladiator" 2000 8.5 "http://...") _
              (reachable_fresh str_lower_7bit))).
Qed.

Lemma add_movie_keeps_titles_unique_witness :
  (forall calls, NoDup (titles (add_all calls db_two_gladiators))) /\
  (forall calls title year rating poster,
     let db' := add_all calls db_two_gladiators in
     In title (titles db') ->
     returned (add_movie title year rating poster db') = false /\
     db_after (add_movie title year rating poster db') = db' /\
     List.length (rows (db_after (add_movie title year rating poster db')))
     = List.length (rows db')).
Proof.
  exact (add_movie_keeps_titles_unique str_lower_7bit db_two_gladiators
           db_two_gladiators_reachable).
Defined.

Lemma add_movie_get_movies_round_trip_aux (db : database) (T : string) (Y : Z)
    (R : Q) (P : string) :
  fits_INTEGER Y = true ->
  ~ In T (titles db) ->
  returned (add_movie T Y R P db) = true /\
  dict_get T (returned (get_movies (db_after (add_movie T Y R P db))))
  = Some (entry.mk Y R P).
Proof.
  intros Hfit Hnin. rewrite add_movie_new by assumption. simpl.
  split; [reflexivity |].
  rewrite map_app. unfold tuple_of_row at 2. simpl.
  rewrite dict_of_rows_snoc. apply dict_get_set_same.
Qed.

(** C2.  Round trip: when no row is titled [T] and [add_movie T Y R P]
    succeeds (returns [True]), the dictionary [get_movies] returns
    afterwards maps [T] to the year, rating and poster exactly as
    given. *)
Theorem add_movie_get_movies_round_trip (db : database) (T : string) (Y : Z)
    (R : Q) (P : string) :
  ~ In T (titles db) ->
  returned (add_movie T Y R P db) = true ->
  dict_get T (returned (get_movies (db_after (add_movie T Y R P db))))
  = Some (entry.mk Y R P).
Proof.
  intros Hnin Hret. apply add_movie_returns_true_iff in Hret.
  now apply add_movie_get_movies_round_trip_aux.
Qed.

Lemma add_movie_get_movies_round_trip_witness :
  dict_get "Inception"
    (returned (get_movies (db_after (add_movie "Inception" 2010 8.8 "N/A" db_gladiator))))
  = Some (entry.mk 2010 8.8 "N/A").
Proof.
  apply (add_movie_get_movies_round_trip db_gladiator "Inception" 2010 8.8 "N/A").
  - simpl. intros [H | []]. discriminate H.
  - reflexivity.
Defined.

(** C8.  In every reachable state [get_movies] returns the dictionary
    that maps the title of each row to its year, rating and poster, in
    scan order; it is the empty dictionary when the table is empty; and
    the call only reads: the store is as before, nothing is printed and
    the one statement sent is the SELECT. *)
Theorem get_movies_lists_every_record (str_lower : string -> string)
    (db : database) :
  reachable str_lower db ->
  returned (get_movies db)
  = map (fun r => (movies.title r, entry_of_row r)) (rows db) /\
  (forall r, In r (rows db) ->
     dict_get (movies.title r) (returned (get_movies db)) = Some (entry_of_row r)) /\
  (rows db = [] -> returned (get_movies db) = []) /\
  db_after (get_movies db) = db /\
  printed (get_movies db) = [] /\
  executed (get_movies db) = [SELECT_title_year_rating_poster].
Proof.
  intros Hreach.
  pose proof (reachable_titles_unique str_lower db Hreach) as Hnd.
  unfold titles in Hnd.
  rewrite get_movies_run. simpl.
  rewrite (dict_of_unique_rows (rows db) Hnd).
  repeat split.
  - intros r Hin. now apply dict_get_unique.
  - intros ->. reflexivity.
Qed.

Lemma get_movies_lists_every_record_witness :
  returned (get_movies db_two_gladiators)
  = [("Gladiator", entry.mk 2000 8.5 "http://...");
     ("gladiator", entry.mk 2001 5.0 "x")] /\
  db_after (get_movies db_two_gladiators) = db_two_gladiators.
Proof.
  pose proof (get_movies_lists_every_record str_lower_7bit db_two_gladiators
                db_two_gladiators_reachable) as [Hret [_ [_ [Hdb _]]]].
  split; [exact Hret | exact Hdb].
Defined.

(** C9.  [update_movie] without a rating ([rating=None]) returns [False]
    and does not touch the storage: no statement is sent, nothing is
    printed and the store is as before. *)
Theorem update_movie_without_rating (str_lower : string -> string)
    (title : string) (db : database) :
  returned (update_movie str_lower title None db) = false /\
  db_after (update_movie str_lower title None db) = db /\
  executed (update_movie str_lower title None db) = [] /\
  printed (update_movie str_lower title None db) = [].
Proof. repeat split. Qed.

(** C10.  The store does not check that a title is non-empty: when no
    row has the empty title and the year is one the INTEGER column can
    take (a signed 64-bit number), [add_movie] with the empty title and
    any finite rating returns [True] and [get_movies] then shows an
    entry under the empty title.  The check is in [command_add_movie]
    only, which refuses an empty input line before anything is looked up
    or stored. *)
Theorem add_movie_accepts_empty_title (db : database) (year : Z) (rating : Q)
    (poster : string) :
  ~ In EmptyString (titles db) ->
  fits_INTEGER year = true ->
  returned (add_movie EmptyString year rating poster db) = true /\
  dict_get EmptyString
    (returned (get_movies (db_after (add_movie EmptyString year rating poster db))))
  = Some (entry.mk year rating poster) /\
  In EmptyString (titles (db_after (add_movie EmptyString year rating poster db))) /\
  (forall str_lower fetch_movie_data str_of_float,
     db_after (command_add_movie str_lower fetch_movie_data str_of_float
                                 EmptyString db) = db /\
     printed (command_add_movie str_lower fetch_movie_data str_of_float
                                EmptyString db) = ["Title cannot be empty."]).
Proof.
  intros Hnin Hfit.
  destruct (add_movie_get_movies_round_trip_aux
              db EmptyString year rating poster Hfit Hnin) as [Hret Hget].
  repeat split; try assumption.
  rewrite add_movie_new by assumption. unfold titles. simpl.
  rewrite map_app, in_app_iff. right. now left.
Qed.

Lemma add_movie_accepts_empty_title_witness :
  returned (add_movie EmptyString 0 0 EmptyString db_gladiator) = true /\
  dict_get EmptyString
    (returned (get_movies (db_after (add_movie EmptyString 0 0 EmptyString db_gladiator))))
  = Some (entry.mk 0 0 EmptyString).
Proof.
  assert (H : ~ In EmptyString (titles db_gladiator)).
  { simpl. intros [H | []]. discriminate H. }
  destruct (add_movie_accepts_empty_title db_gladiator 0 0 EmptyString H eq_refl)
    as [Hret [Hget _]].
  split; [exact Hret | exact Hget].
Defined.

(** C10, as stated for every year, fails: with the year [2 ^ 63] the
    driver cannot bind the parameter, [add_movie] reports the unexpected
    error and returns [False], and the table stays empty. *)
Lemma empty_title_refused_with_year_out_of_range : ~ empty_title_always_accepted.
Proof.
  intros H.
  destruct (H empty_database (2 ^ 63) 0%Q EmptyString) as [Hret _].
  - intros [].
  - vm_compute in Hret. discriminate Hret.
Qed.

(** *** The WHERE clause *)

Lemma lower_title_is_matches (str_lower : string -> string) (title : string)
    (r : movies.row) :
  lower_title_is (str_lower title) r = true <-> matches str_lower title r.
Proof. unfold lower_title_is, matches. apply String.eqb_eq. Qed.

Lemma lower_title_is_not_matches (str_lower : string -> string) (title : string)
    (r : movies.row) :
  lower_title_is (str_lower title) r = false <-> ~ matches str_lower title r.
Proof.
  rewrite <- lower_title_is_matches.
  destruct (lower_title_is (str_lower title) r); split; congruence.
Qed.

(** For a title of the 7-bit range the comparison is equality up to the
    case of letters. *)
Lemma matches_same_up_to_case (str_lower : string -> string) (title : string)
    (r : movies.row) :
  str_lower_ascii_spec str_lower -> is_ascii title = true ->
  (matches str_lower title r <-> same_up_to_case (movies.title r) title).
Proof.
  intros Hspec Hascii. unfold matches, same_up_to_case.
  now rewrite (Hspec title Hascii).
Qed.

Lemma something_changed_count (n : nat) :
  something_changed (Z.of_nat n) = negb (Nat.eqb n 0).
Proof.
  unfold something_changed. destruct n as [| n]; [reflexivity |].
  rewrite Nat2Z.inj_succ. simpl Nat.eqb. simpl negb.
  destruct (Z.eqb_spec (Z.succ (Z.of_nat n)) 0) as [E | _]; [lia |].
  apply Z.ltb_lt. lia.
Qed.

Lemma filter_nil_iff {A : Type} (p : A -> bool) (l : list A) :
  filter p l = [] <-> forall x, In x l -> p x = false.
Proof.
  induction l as [| a l IH]; simpl.
  - tauto.
  - destruct (p a) eqn:E; split.
    + discriminate.
    + intros H. specialize (H a (or_introl eq_refl)). congruence.
    + intros H x [<- | Hin]; [assumption | now apply IH].
    + intros H. apply IH. auto.
Qed.

Lemma filter_all {A : Type} (p : A -> bool) (l : list A) :
  (forall x, In x l -> p x = true) -> filter p l = l.
Proof.
  induction l as [| a l IH]; simpl; intros H; [reflexivity |].
  rewrite (H a (or_introl eq_refl)). f_equal. apply IH. auto.
Qed.

Lemma delete_movie_run (str_lower : string -> string) (title : string)
    (db : database) :
  delete_movie str_lower title db
  = mk_outcome
      (negb (Nat.eqb (List.length (filter (lower_title_is (str_lower title)) (rows db))) 0))
      (mk_database
         (filter (fun r => negb (lower_title_is (str_lower title) r)) (rows db))
         (sqlite_sequence db))
      [] [DELETE_WHERE_LOWER_title (str_lower title)].
Proof.
  unfold delete_movie, bind, execute_delete, sql_delete, ret. simpl.
  now rewrite something_changed_count.
Qed.

Lemma returned_true_iff_some_match (str_lower : string -> string)
    (title : string) (l : list movies.row) :
  negb (Nat.eqb (List.length (filter (lower_title_is (str_lower title)) l)) 0) = true
  <-> exists r, In r l /\ matches str_lower title r.
Proof.
  split.
  - destruct (filter _ l) as [| r rest] eqn:E; [discriminate |].
    intros _. exists r.
    assert (Hin : In r (filter (lower_title_is (str_lower title)) l))
      by (rewrite E; now left).
    apply filter_In in Hin. destruct Hin as [Hin Hp].
    split; [assumption | now apply lower_title_is_matches].
  - intros [r [Hin Hm]]. apply lower_title_is_matches in Hm.
    assert (Hf : In r (filter (lower_title_is (str_lower title)) l))
      by (apply filter_In; tauto).
    destruct (filter _ l); [contradiction | reflexivity].
Qed.

Lemma returned_false_when_no_match (str_lower : string -> string)
    (title : string) (l : list movies.row) :
  (forall r, In r l -> ~ matches str_lower title r) ->
  negb (Nat.eqb (List.length (filter (lower_title_is (str_lower title)) l)) 0) = false.
Proof.
  intros Hno.
  destruct (negb _) eqn:E; [| reflexivity].
  apply returned_true_iff_some_match in E. destruct E as [r [Hin Hm]].
  exfalso. exact (Hno r Hin Hm).
Qed.

(** *** The claims about [delete_movie] *)

(** C7.  Deleting twice: the second [delete_movie] with the same title
    returns [False], and the store after both calls is the store after
    the first. *)
Theorem delete_movie_twice (str_lower : string -> string) (title : string)
    (db : database) :
  let first := delete_movie str_lower title db in
  let second := delete_movie str_lower title (db_after first) in
  returned second = false /\ db_after second = db_after first.
Proof.
  intros first second. subst second first.
  rewrite (delete_movie_run str_lower title db). cbn [db_after].
  rewrite delete_movie_run. cbn [db_after returned rows sqlite_sequence].
  assert (Hnone : filter (lower_title_is (str_lower title))
                    (filter (fun r => negb (lower_title_is (str_lower title) r)) (rows db))
                  = []).
  { apply filter_nil_iff. intros r Hin. apply filter_In in Hin.
    destruct Hin as [_ Hp]. now destruct (lower_title_is (str_lower title) r). }
  rewrite Hnone. simpl. split; [reflexivity |].
  f_equal. apply filter_all. intros r Hin.
  apply filter_In in Hin. tauto.
Qed.

Lemma filter_split_length {A : Type} (p : A -> bool) (l : list A) :
  (List.length (filter p l) + List.length (filter (fun x => negb (p x)) l)
   = List.length l)%nat.
Proof.
  induction l as [| a l IH]; simpl; [reflexivity |].
  destruct (p a); simpl; lia.
Qed.

Lemma at_most_one_match (str_lower : string -> string) (title : string)
    (l : list movies.row) :
  NoDup (map sql_lower (map movies.title l)) ->
  (List.length (filter (lower_title_is (str_lower title)) l) <= 1)%nat.
Proof.
  induction l as [| a l IH]; simpl; intros Hnd; [lia |].
  inversion Hnd as [| x xs Ha Hl]; subst.
  destruct (lower_title_is (str_lower title) a) eqn:E; [| apply IH, Hl].
  replace (filter (lower_title_is (str_lower title)) l) with (@nil movies.row);
    [simpl; lia |].
  symmetry. apply filter_nil_iff. intros r Hin.
  destruct (lower_title_is (str_lower title) r) eqn:Er; [| reflexivity].
  exfalso. apply Ha.
  apply String.eqb_eq in E. apply String.eqb_eq in Er.
  rewrite E, <- Er. rewrite map_map.
  apply (in_map (fun x => sql_lower (movies.title x))). exact Hin.
Qed.

Lemma delete_movie_by_match (str_lower : string -> string) (title : string)
    (db : database) :
  let out := delete_movie str_lower title db in
  (forall r, In r (rows (db_after out))
             <-> In r (rows db) /\ ~ matches str_lower title r) /\
  (returned out = true <-> exists r, In r (rows db) /\ matches str_lower title r) /\
  ((forall r, In r (rows db) -> ~ matches str_lower title r) ->
   returned out = false /\ db_after out = db) /\
  (unique_up_to_case db -> delete_removes_at_most_one str_lower title db).
Proof.
  intros out. subst out. unfold delete_removes_at_most_one.
  rewrite delete_movie_run. cbn [db_after returned rows].
  split; [| split; [| split]].
  - intros r. rewrite filter_In, <- lower_title_is_not_matches.
    now destruct (lower_title_is (str_lower title) r).
  - apply returned_true_iff_some_match.
  - intros Hno. split; [now apply returned_false_when_no_match |].
    destruct db as [l seq]. simpl in *. f_equal.
    apply filter_all. intros r Hin.
    specialize (Hno r Hin). apply lower_title_is_not_matches in Hno.
    now rewrite Hno.
  - intros Huniq.
    pose proof (filter_split_length (lower_title_is (str_lower title)) (rows db)).
    pose proof (at_most_one_match str_lower title (rows db) Huniq).
    lia.
Qed.

(** C4, as the code has it.  For a title of the 7-bit range,
    [delete_movie] removes every row whose title equals the argument up
    to case and keeps the others; it returns [True] exactly when some row
    matched.  There can be several such rows; there is at most one when
    no two stored titles are equal up to case.  When no row matches,
    nothing is removed and the result is [False]. *)
Theorem delete_movie_removes_every_match (str_lower : string -> string)
    (title : string) (db : database) :
  str_lower_ascii_spec str_lower -> is_ascii title = true ->
  let out := delete_movie str_lower title db in
  (forall r, In r (rows (db_after out))
             <-> In r (rows db) /\ ~ same_up_to_case (movies.title r) title) /\
  (returned out = true
   <-> exists r, In r (rows db) /\ same_up_to_case (movies.title r) title) /\
  ((forall r, In r (rows db) -> ~ same_up_to_case (movies.title r) title) ->
   returned out = false /\ db_after out = db) /\
  (unique_up_to_case db -> delete_removes_at_most_one str_lower title db).
Proof.
  intros Hspec Hascii out. subst out.
  pose proof (fun r => matches_same_up_to_case str_lower title r Hspec Hascii) as Hm.
  destruct (delete_movie_by_match str_lower title db) as [Hrows [Hret [Hnone Hone]]].
  split; [| split; [| split]].
  - intros r. rewrite Hrows, Hm. tauto.
  - rewrite Hret. split; intros [r [Hin Hr]]; exists r; split; try assumption;
      now apply Hm.
  - intros Hno. apply Hnone. intros r Hin Hr. apply (Hno r Hin). now apply Hm.
  - exact Hone.
Qed.

(** C4, as stated, fails: the store can hold "Gladiator" and
    "gladiator", and deleting "GLADIATOR" then removes both rows. *)
Lemma delete_movie_removes_two_rows :
  ~ delete_removes_at_most_one str_lower_7bit "GLADIATOR" db_two_gladiators.
Proof.
  unfold delete_removes_at_most_one. vm_compute. intros H.
  apply le_S_n in H. inversion H.
Qed.

(** *** The claims about [update_movie] *)

Lemma update_movie_run (str_lower : string -> string) (title : string)
    (new_rating : Q) (db : database) :
  update_movie str_lower title (Some new_rating) db
  = mk_outcome
      (negb (Nat.eqb (List.length (filter (lower_title_is (str_lower title)) (rows db))) 0))
      (mk_database
         (map (fun r => if lower_title_is (str_lower title) r
                        then movies.set_rating new_rating r else r)
              (rows db))
         (sqlite_sequence db))
      [] [UPDATE_SET_rating_WHERE_LOWER_title new_rating (str_lower title)].
Proof.
  unfold update_movie, bind, execute_update, sql_update, ret. simpl.
  now rewrite something_changed_count.
Qed.

Lemma Forall2_map_same {A : Type} (R : A -> A -> Prop) (g : A -> A) (l : list A) :
  (forall x, R x (g x)) -> Forall2 R l (map g l).
Proof.
  intros H. induction l as [| a l IH]; simpl; constructor; auto.
Qed.

Lemma NoDup_map_injective {A B : Type} (f : A -> B) (l : list A) (a b : A) :
  NoDup (map f l) -> In a l -> In b l -> f a = f b -> a = b.
Proof.
  induction l as [| c l IH]; simpl; intros Hnd Ha Hb Heq; [contradiction |].
  inversion Hnd as [| x xs Hc Hl]; subst.
  destruct Ha as [-> | Ha]; destruct Hb as [-> | Hb].
  - reflexivity.
  - exfalso. apply Hc. rewrite Heq. now apply in_map.
  - exfalso. apply Hc. rewrite <- Heq. now apply in_map.
  - now apply IH.
Qed.

Lemma map_id_when_unselected {A : Type} (p : A -> bool) (g : A -> A) (l : list A) :
  (forall x, In x l -> p x = false) ->
  map (fun x => if p x then g x else x) l = l.
Proof.
  induction l as [| a l IH]; simpl; intros H; [reflexivity |].
  rewrite (H a (or_introl eq_refl)). f_equal. apply IH. auto.
Qed.

Lemma update_movie_by_match (str_lower : string -> string) (title : string)
    (new_rating : Q) (db : database) :
  let out := update_movie str_lower title (Some new_rating) db in
  Forall2 (updated_where (matches str_lower title) new_rating)
          (rows db) (rows (db_after out)) /\
  sqlite_sequence (db_after out) = sqlite_sequence db /\
  (returned out = true <-> exists r, In r (rows db) /\ matches str_lower title r) /\
  ((forall r, In r (rows db) -> ~ matches str_lower title r) ->
   returned out = false /\ db_after out = db).
Proof.
  intros out. subst out.
  rewrite update_movie_run. cbn [db_after returned rows sqlite_sequence].
  split; [| split; [| split]].
  - apply Forall2_map_same. intros r. unfold updated_where.
    destruct (lower_title_is (str_lower title) r) eqn:E; simpl.
    + apply lower_title_is_matches in E. tauto.
    + apply lower_title_is_not_matches in E. tauto.
  - reflexivity.
  - apply returned_true_iff_some_match.
  - intros Hno. split; [now apply returned_false_when_no_match |].
    destruct db as [l seq]. simpl in *. f_equal.
    apply map_id_when_unselected. intros r Hin.
    apply lower_title_is_not_matches. auto.
Qed.

Lemma update_movie_one_match (str_lower : string -> string) (title : string)
    (new_rating : Q) (db : database) :
  unique_up_to_case db ->
  forall r, In r (rows db) -> matches str_lower title r ->
    In (movies.set_rating new_rating r)
       (rows (db_after (update_movie str_lower title (Some new_rating) db))) /\
    forall r', In r' (rows db) -> r' <> r ->
      In r' (rows (db_after (update_movie str_lower title (Some new_rating) db))).
Proof.
  intros Huniq r Hin Hr.
  rewrite update_movie_run. cbn [db_after rows]. split.
  - apply in_map_iff. exists r. split; [| exact Hin].
    apply lower_title_is_matches in Hr. now rewrite Hr.
  - intros r' Hin' Hne. apply in_map_iff. exists r'. split; [| exact Hin'].
    destruct (lower_title_is (str_lower title) r') eqn:E; [| reflexivity].
    exfalso. apply Hne.
    apply lower_title_is_matches in E. unfold matches in E, Hr.
    unfold unique_up_to_case, titles in Huniq. rewrite map_map in Huniq.
    apply (NoDup_map_injective (fun x => sql_lower (movies.title x)) (rows db));
      try assumption.
    now rewrite E, Hr.
Qed.

(** C5, as the code has it.  For a title of the 7-bit range,
    [update_movie] with a rating sets the rating of every row whose title
    equals the argument up to case to the new rating exactly as given,
    whatever its value; id, title, year and poster of every row and the
    rating of every other row stay as they were.  It returns [True]
    exactly when some row matched; when none matches it returns [False]
    and changes nothing.  When no two stored titles are equal up to case,
    the one matching row is the only row that changes. *)
Theorem update_movie_sets_rating_of_every_match (str_lower : string -> string)
    (title : string) (new_rating : Q) (db : database) :
  str_lower_ascii_spec str_lower -> is_ascii title = true ->
  let out := update_movie str_lower title (Some new_rating) db in
  Forall2 (updated_where (fun r => same_up_to_case (movies.title r) title) new_rating)
          (rows db) (rows (db_after out)) /\
  sqlite_sequence (db_after out) = sqlite_sequence db /\
  (returned out = true
   <-> exists r, In r (rows db) /\ same_up_to_case (movies.title r) title) /\
  ((forall r, In r (rows db) -> ~ same_up_to_case (movies.title r) title) ->
   returned out = false /\ db_after out = db) /\
  (unique_up_to_case db -> update_touches_one_record str_lower title new_rating db).
Proof.
  intros Hspec Hascii out. subst out.
  pose proof (fun r => matches_same_up_to_case str_lower title r Hspec Hascii) as Hm.
  destruct (update_movie_by_match str_lower title new_rating db)
    as [Hrows [Hseq [Hret Hnone]]].
  split; [| split; [| split; [| split]]].
  - revert Hrows. apply Forall2_impl. intros r r'. unfold updated_where.
    rewrite (Hm r). tauto.
  - exact Hseq.
  - rewrite Hret. split; intros [r [Hin Hr]]; exists r; split; try assumption;
      now apply Hm.
  - intros Hno. apply Hnone. intros r Hin Hr. apply (Hno r Hin). now apply Hm.
  - intros Huniq r Hin Hsame. apply Hm in Hsame. split.
    + apply Hret. now exists r.
    + now apply update_movie_one_match.
Qed.

(** C5, as stated, fails: with "Gladiator" and "gladiator" both stored,
    updating "GLADIATOR" changes the rating of both rows, so a row other
    than the matched one is changed. *)
Lemma update_movie_changes_two_rows :
  ~ update_touches_one_record str_lower_7bit "GLADIATOR" 9.0 db_two_gladiators.
Proof.
  unfold update_touches_one_record. intros H.
  destruct (H (movies.mk_row 1 "Gladiator" 2000 8.5 "http://..."))
    as [_ [_ Hothers]].
  - simpl. now left.
  - reflexivity.
  - specialize (Hothers (movies.mk_row 2 "gladiator" 2001 5.0 "x")).
    simpl in Hothers.
    destruct Hothers as [E | [E | []]]; try discriminate E.
    + right. now left.
    + discriminate.
Qed.

(** *** The scenario of the two Gladiators *)

(** C3, as the code has it.  From the empty store, after
    [add_movie "Gladiator" 2000 8.5 "http://..."] the call
    [add_movie "gladiator" 2001 5.0 "x"] succeeds, because the UNIQUE
    constraint compares titles exactly, and [get_movies] then returns two
    entries.  The collision up to case is caught one layer up:
    [command_add_movie] with the input "gladiator" reports that the movie
    exists and stores nothing, so that exactly one entry remains, for
    "Gladiator", with year 2000 and rating 8.5. *)
Theorem second_add_with_other_case_succeeds :
  returned (add_movie "Gladiator" 2000 8.5 "http://..." empty_database) = true /\
  returned (add_movie "gladiator" 2001 5.0 "x" db_gladiator) = true /\
  returned (get_movies (db_after (add_movie "gladiator" 2001 5.0 "x" db_gladiator)))
  = [("Gladiator", entry.mk 2000 8.5 "http://...");
     ("gladiator", entry.mk 2001 5.0 "x")] /\
  (forall str_lower fetch_movie_data str_of_float,
     str_lower_ascii_spec str_lower ->
     let out := command_add_movie str_lower fetch_movie_data str_of_float
                                  "gladiator" db_gladiator in
     db_after out = db_gladiator /\
     printed out = ["Movie already exists as 'gladiator'."] /\
     returned (get_movies (db_after out))
     = [("Gladiator", entry.mk 2000 8.5 "http://...")]).
Proof.
  split; [reflexivity | split; [reflexivity | split; [reflexivity |]]].
  intros str_lower fetch_movie_data str_of_float Hspec out. subst out.
  unfold command_add_movie, bind. simpl.
  rewrite (Hspec "Gladiator" eq_refl), (Hspec "gladiator" eq_refl). simpl.
  repeat split.
Qed.

(** C3, as stated, fails: the second add does not return [False]. *)
Lemma second_add_does_not_collide : ~ second_add_collides.
Proof.
  unfold second_add_collides. intros [H _]. vm_compute in H. discriminate H.
Qed.

(** *** Statistics *)






















(** *** The theorems at work *)

Lemma db_gladiator_unique_up_to_case : unique_up_to_case db_gladiator.
Proof.
  unfold unique_up_to_case. simpl. constructor; [intros [] | constructor].
Qed.

Lemma str_lower_7bit_ascii : str_lower_ascii_spec str_lower_7bit.
Proof. intros s _. reflexivity. Qed.

Lemma delete_movie_removes_every_match_witness :
  returned (delete_movie str_lower_7bit "GLADIATOR" db_gladiator) = true /\
  delete_removes_at_most_one str_lower_7bit "GLADIATOR" db_gladiator /\
  returned (delete_movie str_lower_7bit "Anything" db_gladiator) = false /\
  db_after (delete_movie str_lower_7bit "Anything" db_gladiator) = db_gladiator.
Proof.
  pose proof (delete_movie_removes_every_match str_lower_7bit "GLADIATOR" db_gladiator
                str_lower_7bit_ascii eq_refl) as [_ [Hret [_ Hone]]].
  pose proof (delete_movie_removes_every_match str_lower_7bit "Anything" db_gladiator
                str_lower_7bit_ascii eq_refl) as [_ [_ [Hnone _]]].
  split; [| split].
  - apply Hret. exists (movies.mk_row 1 "Gladiator" 2000 8.5 "http://...").
    split; [now left | reflexivity].
  - exact (Hone db_gladiator_unique_up_to_case).
  - apply Hnone. intros r [<- | []]. discriminate.
Defined.

Lemma update_movie_sets_rating_of_every_match_witness :
  update_touches_one_record str_lower_7bit "GLADIATOR" 9.0 db_gladiator /\
  returned (update_movie str_lower_7bit "Anything" (Some 9.0%Q) db_gladiator) = false /\
  db_after (update_movie str_lower_7bit "Anything" (Some 9.0%Q) db_gladiator)
  = db_gladiator.
Proof.
  pose proof (update_movie_sets_rating_of_every_match str_lower_7bit "GLADIATOR" 9.0
                db_gladiator str_lower_7bit_ascii eq_refl) as [_ [_ [_ [_ Hone]]]].
  pose proof (update_movie_sets_rating_of_every_match str_lower_7bit "Anything" 9.0
                db_gladiator str_lower_7bit_ascii eq_refl) as [_ [_ [_ [Hnone _]]]].
  split.
  - exact (Hone db_gladiator_unique_up_to_case).
  - apply Hnone. intros r [<- | []]. discriminate.
Defined.

Lemma second_add_with_other_case_succeeds_witness :
  db_after (command_add_movie str_lower_7bit (fun _ => None) (fun _ => EmptyString)
                              "gladiator" db_gladiator)
  = db_gladiator.
Proof.
  destruct second_add_with_other_case_succeeds as [_ [_ [_ Hcli]]].
  destruct (Hcli str_lower_7bit (fun _ => None) (fun _ => EmptyString)
                 str_lower_7bit_ascii) as [Hdb _].
  exact Hdb.
Defined.

(** The scenarios of the specification, run. *)

Example inception_updated_in_any_case :
  let db := db_after (add_movie "Inception" 2010 8.8 "N/A" empty_database) in
  let out := update_movie str_lower_7bit "INCEPTION" (Some 8.5%Q) db in
  returned out = true /\
  rows (db_after out) = [movies.mk_row 1 "Inception" 2010 8.5 "N/A"].
Proof. split; reflexivity. Qed.

Example nothing_to_do_on_the_empty_store :
  returned (delete_movie str_lower_7bit "Anything" empty_database) = false /\
  returned (update_movie str_lower_7bit "Anything" (Some 9%Q) empty_database) = false /\
  printed (stats_of_movies empty_database) = ["No movies in database."].
Proof. repeat split. Qed.

Example stats_of_two_gladiators :
  printed (stats_of_movies db_two_gladiators)
  = ["Movies: 2 | Min rating: 5.00 | Max rating: 8.50 | Avg rating: 6.75"].
Proof. reflexivity. Qed.

(** The floats of some decimal literals: 3.5 is a binary64 number, 6.6
    is not and stands for the nearest one. *)
Example float_of_decimal_literals :
  float_of_Q 3.5 = S754_finite false 7881299347898368 (-51) /\
  float_of_Q 6.6 = S754_finite false 7430939385161318 (-50) /\
  float_of_Q (-0.1) = S754_finite true 7205759403792794 (-56).
Proof. vm_compute. repeat split. Qed.

(** The mean in float arithmetic is not the exact mean rounded: for the
    ratings 8.0, 3.5, 6.6 and 6.8 the sum from the left is a little
    above 24.9 and the line shows 6.23, where the exact mean 6.225 would
    show as 6.22. *)
Example stats_of_four_ratings :
  let db := add_all [("A", 2000, 8.0%Q, "p"); ("B", 2001, 3.5%Q, "p");
                     ("C", 2002, 6.6%Q, "p"); ("D", 2003, 6.8%Q, "p")]
                    empty_database in
  printed (stats_of_movies db)
  = ["Movies: 4 | Min rating: 3.50 | Max rating: 8.00 | Avg rating: 6.23"] /\
  format_2f (exact_mean [8.0; 3.5; 6.6; 6.8]%Q) = "6.22".
Proof. vm_compute. split; reflexivity. Qed.

(** A year the column cannot take is reported as an unexpected error. *)
Example year_out_of_range_is_reported :
  add_movie "Gladiator" (2 ^ 63) 8.5 "x" empty_database
  = mk_outcome false empty_database
      ["Unexpected error while adding 'Gladiator': "
       ++ "Python int too large to convert to SQLite INTEGER"]
      [INSERT_INTO_movies "Gladiator" (2 ^ 63) 8.5 "x"] /\
  returned (add_movie "Gladiator" (- 2 ^ 63) 8.5 "x" empty_database) = true.
Proof. split; reflexivity. Qed.

Example format_2f_rounds_half_to_even :
  format_2f 8.125 = "8.12" /\ format_2f 8.375 = "8.38" /\
  format_2f 10 = "10.00" /\ format_2f (-0.001) = "-0.00".
Proof. repeat split. Qed.

Example duplicate_add_is_reported :
  add_movie "Gladiator" 2001 5.0 "x" db_gladiator
  = mk_outcome false db_gladiator ["Movie 'Gladiator' already exists."]
               [INSERT_INTO_movies "Gladiator" 2001 5.0 "x"].
Proof. reflexivity. Qed.

(** Titles equal up to case also get in through [command_add_movie]: its
    check compares the line the user typed, not the title the lookup
    returns, which is the one stored. *)
Example case_twins_through_command_add_movie :
  let lookup := fun _ : string => Some (Some 1995, None, Some "u", "GLADIATOR") in
  let out := command_add_movie str_lower_7bit lookup (fun _ => "0.0")
                               "gladiator 1995" db_gladiator in
  titles (db_after out) = ["Gladiator"; "GLADIATOR"] /\
  printed out = ["Added 'GLADIATOR' with rating 0.0, year 1995"].
Proof. split; reflexivity. Qed.

(** A title that [str.lower] folds further than LOWER does is out of
    reach of [delete_movie], even when it is given exactly as stored. *)
Remark delete_movie_misses_title_folded_differently
    (str_lower : string -> string) (r : movies.row) (db : database) :
  In r (rows db) ->
  str_lower (movies.title r) <> sql_lower (movies.title r) ->
  In r (rows (db_after (delete_movie str_lower (movies.title r) db))).
Proof.
  intros Hin Hne. rewrite delete_movie_run. cbn [db_after rows].
  apply filter_In. split; [exact Hin |].
  unfold lower_title_is.
  destruct (String.eqb_spec (sql_lower (movies.title r))
                            (str_lower (movies.title r))) as [E | _];
    [now symmetry in E | reflexivity].
Qed.

(** ** More about the store *)

(** *** Rowids *)

Section Rowids.

Variable str_lower : string -> string.

Lemma StronglySorted_snoc (l : list Z) (x : Z) :
  StronglySorted Z.lt l -> Forall (fun i => i < x) l ->
  StronglySorted Z.lt (l ++ [x]).
Proof.
  induction l as [| a l IH]; simpl; intros Hs Hlt.
  - constructor; constructor.
  - inversion Hs as [| a' l' Hl Ha]; subst.
    inversion Hlt as [| a' l' Hax Hlx]; subst.
    constructor; [now apply IH |].
    apply Forall_app. split; [assumption | now constructor].
Qed.

Lemma StronglySorted_map_filter (keep : movies.row -> bool) (l : list movies.row) :
  StronglySorted Z.lt (map movies.id l) ->
  StronglySorted Z.lt (map movies.id (filter keep l)).
Proof.
  induction l as [| a l IH]; simpl; intros Hs; [constructor |].
  inversion Hs as [| a' l' Hl Ha]; subst.
  destruct (keep a); simpl; [| now apply IH].
  constructor; [now apply IH |].
  rewrite Forall_forall in *. intros i Hi. apply Ha.
  apply in_map_iff in Hi. destruct Hi as [r [<- Hr]].
  apply filter_In in Hr. apply in_map. tauto.
Qed.

Lemma ids_after_update (rating : Q) (key : string) (l : list movies.row) :
  map movies.id
      (map (fun r => if lower_title_is key r then movies.set_rating rating r else r) l)
  = map movies.id l.
Proof.
  rewrite map_map. apply map_ext. intros r.
  now destruct (lower_title_is key r).
Qed.

Lemma run_sequence_grows (c : call) (db : database) :
  sqlite_sequence db <= sqlite_sequence (run str_lower c db).
Proof.
  destruct c as [| t y r p | t | t [r |] |]; unfold run; try (simpl; lia).
  - destruct (add_movie_accepts_or_refuses t y r p db)
      as [[Hfit Hnin] | [_ [_ [Hdb _]]]].
    + rewrite add_movie_new by assumption. simpl. lia.
    + rewrite Hdb. lia.
  - unfold stats_of_movies, bind, execute_select_rating. simpl.
    destruct (map movies.rating (rows db)); simpl; lia.
Qed.

Lemma rowids_in_order_run (c : call) (db : database) :
  rowids_in_order db -> rowids_in_order (run str_lower c db).
Proof.
  unfold rowids_in_order. intros [Hs [Hb Hseq]].
  destruct c as [| t y r p | t | t [r |] |]; unfold run.
  - simpl. tauto.
  - destruct (add_movie_accepts_or_refuses t y r p db)
      as [[Hfit Hnin] | [_ [_ [Hdb _]]]].
    + rewrite add_movie_new by assumption. simpl. rewrite map_app. simpl.
      split; [| split; [| lia]].
      * apply StronglySorted_snoc; [assumption |].
        rewrite Forall_forall in *. intros i Hi. specialize (Hb i Hi). lia.
      * apply Forall_app. split.
        -- rewrite Forall_forall in *. intros i Hi. specialize (Hb i Hi). lia.
        -- constructor; [lia | constructor].
    + rewrite Hdb. tauto.
  - simpl. split; [now apply StronglySorted_map_filter | split; [| assumption]].
    rewrite Forall_forall in *. intros i Hi. apply Hb.
    apply in_map_iff in Hi. destruct Hi as [x [<- Hx]].
    apply filter_In in Hx. apply in_map. tauto.
  - simpl. rewrite ids_after_update. tauto.
  - simpl. tauto.
  - unfold stats_of_movies, bind, execute_select_rating. simpl.
    destruct (map movies.rating (rows db)); simpl; tauto.
Qed.

(** X1.  Rowids are never reused: in every reachable state the ids are
    positive and strictly growing along the scan, none exceeds the
    AUTOINCREMENT counter, and no call makes the counter smaller -- so
    an id freed by a delete is not given to a later row. *)
Theorem rowids_never_reused (db : database) :
  reachable str_lower db ->
  rowids_in_order db /\
  forall c, sqlite_sequence db <= sqlite_sequence (run str_lower c db) /\
            forall r', In r' (rows (run str_lower c db)) ->
                       movies.id r' <= sqlite_sequence db ->
                       exists r, In r (rows db) /\ movies.id r = movies.id r' /\
                                 movies.title r = movies.title r'.
Proof.
  intros Hreach.
  assert (Hinv : rowids_in_order db).
  { induction Hreach as [| c db Hreach IH].
    - repeat split; simpl; try constructor. lia.
    - now apply rowids_in_order_run. }
  split; [exact Hinv |].
  intros c. split; [apply run_sequence_grows |].
  intros r' Hin Hid.
  destruct c as [| t y r p | t | t [r |] |]; unfold run in Hin.
  - now exists r'.
  - destruct (add_movie_accepts_or_refuses t y r p db)
      as [[Hfit Hnt] | [_ [_ [Hdb _]]]].
    + rewrite add_movie_new in Hin by assumption. simpl in Hin.
      apply in_app_iff in Hin. destruct Hin as [Hin | [<- | []]].
      * now exists r'.
      * simpl in Hid. lia.
    + rewrite Hdb in Hin. now exists r'.
  - simpl in Hin. apply filter_In in Hin. exists r'. tauto.
  - simpl in Hin. apply in_map_iff in Hin. destruct Hin as [r0 [<- Hr0]].
    exists r0. now destruct (lower_title_is (str_lower t) r0).
  - now exists r'.
  - unfold stats_of_movies, bind, execute_select_rating in Hin. simpl in Hin.
    destruct (map movies.rating (rows db)); now exists r'.
Qed.

End Rowids.

(** *** What [get_movies] shows after a change *)

Lemma dict_get_set_other {V : Type} (k k' : string) (v : V) (d : dict V) :
  k' <> k -> dict_get k' (dict_set k v d) = dict_get k' d.
Proof.
  intros Hne. induction d as [| [k0 v0] d IH]; simpl.
  - destruct (String.eqb_spec k k') as [E | _]; [congruence | reflexivity].
  - destruct (String.eqb_spec k0 k) as [-> | Hk0]; simpl.
    + destruct (String.eqb_spec k k') as [E | _]; [congruence | reflexivity].
    + now rewrite IH.
Qed.

Lemma dict_get_of_rows (k : string) (l : list movies.row) :
  dict_get k (map (fun r => (movies.title r, entry_of_row r)) l)
  = option_map entry_of_row (find (row_titled k) l).
Proof.
  induction l as [| r l IH]; simpl; [reflexivity |].
  unfold row_titled at 1. now destruct (String.eqb (movies.title r) k).
Qed.

Lemma get_movies_lookup (k : string) (db : database) :
  NoDup (titles db) ->
  dict_get k (returned (get_movies db))
  = option_map entry_of_row (find (row_titled k) (rows db)).
Proof.
  intros Hnd. rewrite get_movies_run. cbn [returned].
  rewrite (dict_of_unique_rows (rows db) Hnd). apply dict_get_of_rows.
Qed.

Lemma find_filter_kept {A : Type} (p keep : A -> bool) (l : list A) :
  (forall x, In x l -> p x = true -> keep x = true) ->
  find p (filter keep l) = find p l.
Proof.
  induction l as [| a l IH]; simpl; intros H; [reflexivity |].
  destruct (keep a) eqn:Ek; simpl.
  - destruct (p a); [reflexivity |]. apply IH. auto.
  - destruct (p a) eqn:Ep.
    + rewrite (H a (or_introl eq_refl) Ep) in Ek. discriminate Ek.
    + apply IH. auto.
Qed.

Lemma find_filter_dropped {A : Type} (p keep : A -> bool) (l : list A) :
  (forall x, In x l -> p x = true -> keep x = false) ->
  find p (filter keep l) = None.
Proof.
  intros H. destruct (find p (filter keep l)) as [x |] eqn:E; [| reflexivity].
  apply find_some in E. destruct E as [Hin Hp].
  apply filter_In in Hin. destruct Hin as [Hin Hk].
  rewrite (H x Hin Hp) in Hk. discriminate Hk.
Qed.

Lemma find_map_same_test {A : Type} (p : A -> bool) (g : A -> A) (l : list A) :
  (forall x, p (g x) = p x) ->
  find p (map g l) = option_map g (find p l).
Proof.
  intros H. induction l as [| a l IH]; simpl; [reflexivity |].
  rewrite H. now destruct (p a).
Qed.

Section Lookup.

Variable str_lower : string -> string.
Hypothesis str_lower_ascii : str_lower_ascii_spec str_lower.

Lemma lower_title_is_ascii (title : string) (r : movies.row) :
  is_ascii title = true ->
  lower_title_is (str_lower title) r = same_up_to_case_b (movies.title r) title.
Proof.
  intros Hascii. unfold lower_title_is, same_up_to_case_b.
  now rewrite (str_lower_ascii title Hascii).
Qed.

(** X2.  A deleted title is free again: after [delete_movie] with a title
    of the 7-bit range, the title is not in the table, whatever the store
    held before, and [add_movie] with that title succeeds exactly when
    the year is one the INTEGER column can take. *)
Theorem add_movie_after_delete_movie (title : string) (year : Z) (rating : Q)
    (poster : string) (db : database) :
  is_ascii title = true ->
  ~ In title (titles (db_after (delete_movie str_lower title db))) /\
  returned (add_movie title year rating poster
              (db_after (delete_movie str_lower title db))) = fits_INTEGER year.
Proof.
  intros Hascii.
  assert (Hfree : ~ In title (titles (db_after (delete_movie str_lower title db)))).
  { rewrite delete_movie_run. unfold titles. cbn [db_after rows].
    intros Hin. apply in_map_iff in Hin. destruct Hin as [r [Ht Hr]].
    apply filter_In in Hr. destruct Hr as [_ Hkeep].
    rewrite lower_title_is_ascii in Hkeep by assumption.
    unfold same_up_to_case_b in Hkeep. rewrite Ht, String.eqb_refl in Hkeep.
    discriminate Hkeep. }
  split; [exact Hfree |].
  destruct (fits_INTEGER year) eqn:Hfit.
  - now rewrite add_movie_new.
  - now rewrite add_movie_overflow.
Qed.

(** X3.  What [get_movies] shows after [delete_movie] with a title of the
    7-bit range, in a reachable state: no entry under any key equal to
    the title up to case, and under every other key the entry it showed
    before. *)
Theorem get_movies_after_delete_movie (title k : string) (db : database) :
  reachable str_lower db -> is_ascii title = true ->
  dict_get k (returned (get_movies (db_after (delete_movie str_lower title db))))
  = if same_up_to_case_b k title then None
    else dict_get k (returned (get_movies db)).
Proof.
  intros Hreach Hascii.
  pose proof (reachable_titles_unique str_lower db Hreach) as Hnd.
  pose proof (reachable_titles_unique str_lower _
                (reachable_run str_lower (call_delete_movie title) db Hreach)) as Hnd'.
  cbn [run] in Hnd'.
  rewrite (get_movies_lookup k _ Hnd'), (get_movies_lookup k db Hnd).
  rewrite delete_movie_run. cbn [db_after rows].
  destruct (same_up_to_case_b k title) eqn:E.
  - rewrite find_filter_dropped; [reflexivity |].
    intros r _ Hr. unfold row_titled in Hr. apply String.eqb_eq in Hr.
    rewrite lower_title_is_ascii, Hr, E by assumption. reflexivity.
  - rewrite find_filter_kept; [reflexivity |].
    intros r _ Hr. unfold row_titled in Hr. apply String.eqb_eq in Hr.
    rewrite lower_title_is_ascii, Hr, E by assumption. reflexivity.
Qed.

(** X4.  What [get_movies] shows after [update_movie] with a rating and
    a title of the 7-bit range, in a reachable state: the same keys in
    the same order; under every key equal to the title up to case the
    old entry with the new rating; under every other key the old
    entry. *)
Theorem get_movies_after_update_movie (title k : string) (new_rating : Q)
    (db : database) :
  reachable str_lower db -> is_ascii title = true ->
  let after := db_after (update_movie str_lower title (Some new_rating) db) in
  keys (returned (get_movies after)) = keys (returned (get_movies db)) /\
  dict_get k (returned (get_movies after))
  = if same_up_to_case_b k title
    then option_map (with_rating new_rating) (dict_get k (returned (get_movies db)))
    else dict_get k (returned (get_movies db)).
Proof.
  intros Hreach Hascii after. subst after.
  pose proof (reachable_titles_unique str_lower db Hreach) as Hnd.
  pose proof (reachable_titles_unique str_lower _
                (reachable_run str_lower (call_update_movie title (Some new_rating))
                   db Hreach)) as Hnd'.
  cbn [run] in Hnd'. split.
  - rewrite !get_movies_run. cbn [returned].
    rewrite (dict_of_unique_rows _ Hnd'), (dict_of_unique_rows _ Hnd).
    unfold keys. rewrite !map_map. cbn [fst].
    rewrite update_movie_run. cbn [db_after rows].
    rewrite map_map. apply map_ext. intros r.
    now destruct (lower_title_is (str_lower title) r).
  - rewrite (get_movies_lookup k _ Hnd'), (get_movies_lookup k db Hnd).
    rewrite update_movie_run. cbn [db_after rows].
    rewrite find_map_same_test.
    + destruct (find (row_titled k) (rows db)) as [r |] eqn:E; simpl.
      * apply find_some in E. destruct E as [_ Hr].
        unfold row_titled in Hr. apply String.eqb_eq in Hr.
        rewrite lower_title_is_ascii, Hr by assumption.
        now destruct (same_up_to_case_b k title).
      * now destruct (same_up_to_case_b k title).
    + intros r. unfold row_titled.
      now destruct (lower_title_is (str_lower title) r).
Qed.

End Lookup.

(** X5.  [add_movie] leaves the other entries alone: under every key
    other than the title added, [get_movies] shows afterwards what it
    showed before, whether the add succeeded or not. *)
Theorem get_movies_after_add_movie_elsewhere (title k : string) (year : Z)
    (rating : Q) (poster : string) (db : database) :
  k <> title ->
  dict_get k (returned (get_movies (db_after (add_movie title year rating poster db))))
  = dict_get k (returned (get_movies db)).
Proof.
  intros Hne.
  destruct (add_movie_accepts_or_refuses title year rating poster db)
    as [[Hfit Hnin] | [_ [_ [Hdb _]]]].
  - rewrite add_movie_new by assumption. rewrite !get_movies_run.
    cbn [returned db_after rows].
    rewrite map_app. unfold tuple_of_row at 2. simpl.
    rewrite dict_of_rows_snoc. now apply dict_get_set_other.
  - now rewrite Hdb.
Qed.

(** X25.  A year the INTEGER column cannot take: when the year is
    outside the signed 64-bit range, [add_movie] sends the INSERT, the
    driver cannot bind the year, and the call prints the line of the
    unexpected error, returns [False] and leaves the store as it was --
    whether the title is stored already or not. *)
Theorem add_movie_year_out_of_range (title : string) (year : Z) (rating : Q)
    (poster : string) (db : database) :
  year < - 2 ^ 63 \/ 2 ^ 63 <= year ->
  add_movie title year rating poster db
  = mk_outcome false db
      ["Unexpected error while adding '" ++ title ++ "': "
       ++ "Python int too large to convert to SQLite INTEGER"]
      [INSERT_INTO_movies title year rating poster].
Proof.
  intros Hout. apply add_movie_overflow. unfold fits_INTEGER.
  destruct (Z.leb_spec (- 2 ^ 63) year) as [Hlow | Hlow]; [| reflexivity].
  destruct (Z.ltb_spec year (2 ^ 63)) as [Hhigh | Hhigh]; [lia | reflexivity].
Qed.

(** X6.  [update_movie] is idempotent: the same update a second time
    returns what the first returned and leaves the store as the first
    left it. *)
Theorem update_movie_twice (str_lower : string -> string) (title : string)
    (rating : option Q) (db : database) :
  let first := update_movie str_lower title rating db in
  let second := update_movie str_lower title rating (db_after first) in
  returned second = returned first /\ db_after second = db_after first.
Proof.
  intros first second. subst second first.
  destruct rating as [q |]; [| split; reflexivity].
  rewrite (update_movie_run str_lower title q db). cbn [db_after returned].
  rewrite update_movie_run. cbn [db_after returned rows sqlite_sequence].
  split.
  - f_equal. f_equal. clear. induction (rows db) as [| r l IH]; simpl; [reflexivity |].
    destruct (lower_title_is (str_lower title) r) eqn:E; simpl.
    + unfold lower_title_is in *. simpl. rewrite E. simpl. now f_equal.
    + rewrite E. exact IH.
  - f_equal. rewrite map_map. apply map_ext. intros r.
    destruct (lower_title_is (str_lower title) r) eqn:E; [| now rewrite E].
    unfold lower_title_is in *. simpl. now rewrite E.
Qed.

(** ** The commands *)

Lemma for_each_print {A : Type} (f : A -> string) (l : list A) (db : database) :
  for_each (fun x => print (f x)) l db = mk_outcome tt db (map f l) [].
Proof.
  induction l as [| x l IH]; [reflexivity |].
  cbn [for_each]. unfold bind.
  change (print (f x) db) with (mk_outcome tt db [f x] (@nil statement)).
  cbn [db_after returned printed executed].
  rewrite IH. reflexivity.
Qed.

Lemma keys_dict_set {V : Type} (k k' : string) (v : V) (d : dict V) :
  In k' (keys (dict_set k v d)) <-> k' = k \/ In k' (keys d).
Proof.
  unfold keys. induction d as [| [k0 v0] d IH]; simpl.
  - intuition congruence.
  - destruct (String.eqb_spec k0 k) as [-> | Hne]; simpl.
    + intuition congruence.
    + rewrite IH. intuition congruence.
Qed.

Lemma keys_of_rows (k : string) (l : list movies.row) :
  In k (keys (dict_of_rows (map tuple_of_row l))) <-> In k (map movies.title l).
Proof.
  induction l as [| r l IH] using rev_ind.
  - simpl. tauto.
  - rewrite !map_app. simpl map. unfold tuple_of_row at 2.
    rewrite dict_of_rows_snoc, keys_dict_set, in_app_iff, IH. simpl.
    intuition congruence.
Qed.

Section AddCommand.

Variable str_lower : string -> string.
Variable fetch_movie_data :
  string -> option (option Z * option Q * option string * string).
Variable str_of_float : Q -> string.

Lemma lower_titles_hit (title_input : string) (db : database) :
  existsb (String.eqb (str_lower title_input))
          (map str_lower (keys (returned (get_movies db)))) = true
  <-> exists t, In t (titles db) /\ str_lower t = str_lower title_input.
Proof.
  rewrite existsb_exists. split.
  - intros [x [Hin Heq]]. apply String.eqb_eq in Heq.
    apply in_map_iff in Hin. destruct Hin as [t [Ht Hin]].
    exists t. split; [| congruence].
    now apply keys_of_rows in Hin.
  - intros [t [Hin Heq]]. exists (str_lower t). split.
    + apply in_map. now apply keys_of_rows.
    + apply String.eqb_eq. congruence.
Qed.

(** X7.  The duplicate check of [command_add_movie]: when the line typed
    is not empty and some stored title folds, by [str.lower], to what
    the line folds to, the command reports that the movie exists and
    stops there -- the store is as before, the SELECT is the only
    statement sent, and the lookup is not consulted at all. *)
Theorem command_add_movie_refuses_known_title (title_input : string)
    (db : database) :
  title_input <> EmptyString ->
  (exists t, In t (titles db) /\ str_lower t = str_lower title_input) ->
  command_add_movie str_lower fetch_movie_data str_of_float title_input db
  = mk_outcome tt db ["Movie already exists as '" ++ title_input ++ "'."]
               [SELECT_title_year_rating_poster].
Proof.
  intros Hne Hhit. apply lower_titles_hit in Hhit.
  unfold command_add_movie, bind.
  destruct (String.eqb_spec title_input EmptyString) as [E | _]; [contradiction |].
  rewrite Hhit. reflexivity.
Qed.

(** X9.  [command_add_movie] only ever appends: whatever is typed and
    whatever the lookup returns, the rows of the store are kept as they
    were, in their order, and at most one row is added after them; when
    the lookup finds nothing, the store is as before and the SELECT of
    [get_movies] is the only statement sent. *)
Theorem command_add_movie_only_appends (title_input : string) (db : database) :
  let out := command_add_movie str_lower fetch_movie_data str_of_float
                               title_input db in
  (exists added, rows (db_after out) = (rows db ++ added)%list /\
                 (List.length added <= 1)%nat) /\
  (fetch_movie_data title_input = None ->
   db_after out = db /\ executed out = [SELECT_title_year_rating_poster]).
Proof.
  intros out. subst out. unfold command_add_movie, bind.
  cbn [returned db_after printed executed get_movies].
  change (db_after (get_movies db)) with db.
  assert (Hsame : exists added, rows db = (rows db ++ added)%list /\
                                (List.length added <= 1)%nat).
  { exists []. rewrite app_nil_r. simpl. split; [reflexivity | lia]. }
  split.
  - destruct (String.eqb title_input EmptyString); [exact Hsame |].
    destruct (existsb _ _); [exact Hsame |].
    destruct (fetch_movie_data title_input) as [[[[y r] p] ft] |];
      [| exact Hsame].
    set (y' := match y with None => 0 | Some y0 => y0 end).
    set (r' := match r with None => 0%Q | Some r0 => r0 end).
    set (p' := match p with None => EmptyString | Some u => u end).
    destruct (add_movie_accepts_or_refuses ft y' r' p' db)
      as [[Hfit Hnin] | [_ [Hret [Hdb _]]]].
    + rewrite (add_movie_new ft y' r' p' db Hfit Hnin). cbn [returned db_after rows].
      eexists. split; [reflexivity | simpl; lia].
    + rewrite Hret. cbn [db_after print]. rewrite Hdb. exact Hsame.
  - intros Hfetch. rewrite Hfetch.
    destruct (String.eqb title_input EmptyString); [split; reflexivity |].
    destruct (existsb _ _); split; reflexivity.
Qed.

End AddCommand.

(** *** The commands that only read *)

Lemma get_movies_of_reachable (str_lower : string -> string) (db : database) :
  reachable str_lower db ->
  get_movies db
  = mk_outcome (map (fun r => (movies.title r, entry_of_row r)) (rows db)) db []
               [SELECT_title_year_rating_poster].
Proof.
  intros Hreach. rewrite get_movies_run.
  pose proof (reachable_titles_unique str_lower db Hreach) as Hnd.
  unfold titles in Hnd. now rewrite (dict_of_unique_rows (rows db) Hnd).
Qed.

Lemma starts_with_iff (s1 s2 : string) :
  starts_with s1 s2 = true <-> exists rest, s2 = s1 ++ rest.
Proof.
  revert s2. induction s1 as [| c s1 IH]; intros s2; simpl.
  - split; [intros _; now exists s2 | intros _; reflexivity].
  - destruct s2 as [| c2 s2].
    + split; [discriminate | intros [rest H]; discriminate H].
    + destruct (Ascii.eqb_spec c c2) as [-> | Hne]; simpl.
      * rewrite IH. split; intros [rest H]; exists rest; congruence.
      * split; [discriminate | intros [rest H]; congruence].
Qed.

Lemma contains_iff (needle hay : string) :
  contains needle hay = true <-> exists before after, hay = before ++ needle ++ after.
Proof.
  induction hay as [| c hay IH]; simpl.
  - rewrite orb_false_r, starts_with_iff. split.
    + intros [rest H]. exists EmptyString, rest. exact H.
    + intros [[| c b] [a H]]; [now exists a | discriminate H].
  - rewrite orb_true_iff, IH, starts_with_iff. split.
    + intros [[rest H] | [b [a H]]].
      * exists EmptyString, rest. exact H.
      * exists (String c b), a. simpl. now rewrite H.
    + intros [[| c' b] [a H]].
      * left. now exists a.
      * right. exists b, a. simpl in H. congruence.
Qed.

Lemma filter_map_swap {A B : Type} (f : B -> bool) (g : A -> B) (l : list A) :
  filter f (map g l) = map g (filter (fun x => f (g x)) l).
Proof.
  induction l as [| a l IH]; simpl; [reflexivity |].
  destruct (f (g a)); simpl; now rewrite IH.
Qed.

Section ReadingCommands.

Variable str_lower : string -> string.
Variable str_of_float : Q -> string.

Lemma reading_commands_only_select (typed : string) (draw : nat)
    (db : database) :
  (db_after (command_list_movies str_of_float db) = db /\
   executed (command_list_movies str_of_float db) = [SELECT_title_year_rating_poster]) /\
  (db_after (command_random_movie str_of_float draw db) = db /\
   executed (command_random_movie str_of_float draw db)
   = [SELECT_title_year_rating_poster]) /\
  (db_after (command_search_movie str_lower str_of_float typed db) = db /\
   executed (command_search_movie str_lower str_of_float typed db)
   = [SELECT_title_year_rating_poster]) /\
  (db_after (command_ranking_of_movies str_of_float db) = db /\
   executed (command_ranking_of_movies str_of_float db)
   = [SELECT_title_year_rating_poster]).
Proof.
  unfold command_list_movies, command_random_movie, command_search_movie,
    command_ranking_of_movies, bind.
  rewrite get_movies_run. cbn [returned db_after printed executed].
  destruct (dict_of_rows (map tuple_of_row (rows db))) as [| item items].
  - repeat split.
  - repeat split.
    + now rewrite for_each_print.
    + now rewrite for_each_print.
    + destruct (String.eqb (str_lower typed) EmptyString); [reflexivity |].
      destruct (filter _ (item :: items)); [reflexivity |].
      now rewrite for_each_print.
    + destruct (String.eqb (str_lower typed) EmptyString); [reflexivity |].
      destruct (filter _ (item :: items)); [reflexivity |].
      now rewrite for_each_print.
    + now rewrite for_each_print.
    + now rewrite for_each_print.
Qed.

(** X10.  The commands that list, draw, search and rank never write:
    whatever is typed or drawn, the store is as before and the one
    statement sent is the SELECT. *)
Theorem reading_commands_never_write (typed : string) (draw : nat)
    (db : database) :
  (db_after (command_list_movies str_of_float db) = db /\
   executed (command_list_movies str_of_float db) = [SELECT_title_year_rating_poster]) /\
  (db_after (command_random_movie str_of_float draw db) = db /\
   executed (command_random_movie str_of_float draw db)
   = [SELECT_title_year_rating_poster]) /\
  (db_after (command_search_movie str_lower str_of_float typed db) = db /\
   executed (command_search_movie str_lower str_of_float typed db)
   = [SELECT_title_year_rating_poster]) /\
  (db_after (command_ranking_of_movies str_of_float db) = db /\
   executed (command_ranking_of_movies str_of_float db)
   = [SELECT_title_year_rating_poster]).
Proof. exact (reading_commands_only_select typed draw db). Qed.

(** X11.  [command_list_movies] in a reachable state: for the empty
    store the one line "No movies in database."; otherwise a heading
    with the number of stored rows, then one line for every stored row,
    each row once, in the order of insertion. *)
Theorem command_list_movies_lists_every_row (db : database) :
  reachable str_lower db ->
  printed (command_list_movies str_of_float db)
  = match rows db with
    | [] => ["No movies in database."]
    | _ =>
        (LF ++ str_of_Z (Z.of_nat (List.length (rows db))) ++ " movies in total:")
        :: map (fun r => movie_line str_of_float (movies.title r, entry_of_row r))
               (rows db)
    end.
Proof.
  intros Hreach. unfold command_list_movies, bind.
  rewrite (get_movies_of_reachable str_lower db Hreach).
  cbn [returned db_after printed].
  destruct (rows db) as [| r l] eqn:E; [reflexivity |].
  cbn [map]. rewrite for_each_print. cbn [printed app].
  rewrite <- (length_map (fun r => (movies.title r, entry_of_row r)) (r :: l)).
  cbn [map]. rewrite map_map. reflexivity.
Qed.

(** X12.  [command_search_movie] in a reachable state with a non-empty
    store, for a line that does not fold to the empty text: the command
    goes through the rows in the order of insertion and prints the line
    of every row whose folded title has the folded line as a substring,
    once for each such row; when there is no such row it prints the one
    line "No matching movies found". *)
Theorem command_search_movie_shows_the_matches (typed : string) (db : database) :
  reachable str_lower db -> rows db <> [] -> str_lower typed <> EmptyString ->
  let hit := fun r => contains (str_lower typed) (str_lower (movies.title r)) in
  (forall r, hit r = true <->
             exists before after,
               str_lower (movies.title r) = before ++ str_lower typed ++ after) /\
  printed (command_search_movie str_lower str_of_float typed db)
  = match filter hit (rows db) with
    | [] => ["No matching movies found for '" ++ str_lower typed ++ "'."]
    | hits => map (fun r => movie_line str_of_float (movies.title r, entry_of_row r))
                  hits
    end.
Proof.
  intros Hreach Hrows Hquery hit. subst hit.
  split.
  - intros r. apply contains_iff.
  - unfold command_search_movie, bind.
    rewrite (get_movies_of_reachable str_lower db Hreach).
    cbn [returned db_after printed].
    destruct (rows db) as [| r0 l0] eqn:E; [contradiction |].
    rewrite <- E. destruct (map _ (rows db)) eqn:Em.
    { rewrite E in Em. discriminate Em. }
    rewrite <- Em.
    destruct (String.eqb_spec (str_lower typed) EmptyString) as [Eq | _];
      [contradiction |].
    rewrite filter_map_swap. cbn [fst].
    destruct (filter _ (rows db)) as [| h hs]; [reflexivity |].
    cbn [map]. rewrite for_each_print. cbn [printed app map].
    now rewrite map_map.
Qed.

End ReadingCommands.

(** *** Ranking *)






(** X14.  [command_random_movie] in a reachable state with a non-empty
    store: whatever the generator draws, the one line printed names a
    stored movie, with the rating and the year stored for it. *)
Theorem command_random_movie_names_a_stored_movie (str_lower : string -> string)
    (str_of_float : Q -> string) (draw : nat) (db : database) :
  reachable str_lower db -> rows db <> [] ->
  exists r, In r (rows db) /\
    printed (command_random_movie str_of_float draw db)
    = ["Tonight's movie: " ++ movies.title r
       ++ " (Rating: " ++ str_of_float (movies.rating r)
       ++ ", Year " ++ str_of_Z (movies.year r) ++ ")"].
Proof.
  intros Hreach Hrows. unfold command_random_movie, bind.
  rewrite (get_movies_of_reachable str_lower db Hreach).
  cbn [returned db_after printed].
  remember (map (fun r => (movies.title r, entry_of_row r)) (rows db)) as items
    eqn:Ei.
  destruct items as [| first rest].
  { destruct (rows db); [contradiction | discriminate Ei]. }
  cbn [app printed print].
  assert (Hlen : (draw mod List.length (first :: rest)
                  < List.length (first :: rest))%nat).
  { apply Nat.mod_upper_bound. discriminate. }
  pose proof (nth_In (first :: rest) first Hlen) as Hin.
  set (item := nth (draw mod List.length (first :: rest)) (first :: rest) first) in *.
  rewrite Ei in Hin. apply in_map_iff in Hin.
  destruct Hin as [r [Hr Hin]]. exists r. split; [exact Hin |].
  rewrite <- Hr. reflexivity.
Qed.

(** *** The commands that write *)

Section WritingCommands.

Variable str_lower : string -> string.
Variable str_of_float : Q -> string.
Variable parse_float : string -> option Q.

(** X15.  [command_delete_movie]: for an empty line it prints "Title
    cannot be empty." and sends no statement.  Otherwise its message is
    true to the store: it prints "deleted" exactly when rows went away,
    and "not found" exactly when the store is as before. *)
Theorem command_delete_movie_reports_what_happened (title : string)
    (db : database) :
  let out := command_delete_movie str_lower title db in
  if String.eqb title EmptyString
  then out = mk_outcome tt db ["Title cannot be empty."] []
  else
    (printed out = ["Movie '" ++ title ++ "' deleted."] /\
     (List.length (rows (db_after out)) < List.length (rows db))%nat) \/
    (printed out = ["Movie not found or could not be deleted."] /\
     db_after out = db).
Proof.
  intros out. subst out. unfold command_delete_movie, bind.
  destruct (String.eqb title EmptyString); [reflexivity |].
  destruct (delete_movie_by_match str_lower title db) as [_ [Hret [Hnone _]]].
  destruct (returned (delete_movie str_lower title db)) eqn:E.
  - left. split; [reflexivity |].
    cbn [db_after print]. rewrite delete_movie_run in *. cbn [db_after returned rows] in *.
    pose proof (filter_split_length (lower_title_is (str_lower title)) (rows db)).
    destruct (filter (lower_title_is (str_lower title)) (rows db)); [discriminate E |].
    simpl in *. lia.
  - right. split; [reflexivity |]. cbn [db_after print].
    apply Hnone. intros r Hin Hr.
    assert (Ht : false = true) by (apply Hret; now exists r).
    discriminate Ht.
Qed.

Lemma input_new_rating_rejects (bad : list string) (db : database) :
  Forall (fun line => parse_float line = None) bad ->
  input_new_rating parse_float bad db
  = mk_outcome None db
      (map (fun _ => "Invalid input. Please enter a number for rating.") bad) [].
Proof.
  induction 1 as [| line bad Hline Hbad IH]; [reflexivity |].
  cbn [input_new_rating]. rewrite Hline. unfold bind.
  change (print "Invalid input. Please enter a number for rating." db)
    with (mk_outcome tt db ["Invalid input. Please enter a number for rating."]
                     (@nil statement)).
  cbn [db_after returned printed executed]. rewrite IH. reflexivity.
Qed.

Lemma input_new_rating_accepts (bad : list string) (good : string)
    (rest : list string) (new_rating : Q) (db : database) :
  Forall (fun line => parse_float line = None) bad ->
  parse_float good = Some new_rating ->
  input_new_rating parse_float (bad ++ good :: rest) db
  = mk_outcome (Some (new_rating, rest)) db
      (map (fun _ => "Invalid input. Please enter a number for rating.") bad) [].
Proof.
  intros Hbad Hgood.
  induction Hbad as [| line bad Hline Hbad IH].
  - cbn [app input_new_rating]. now rewrite Hgood.
  - cbn [app input_new_rating]. rewrite Hline. unfold bind.
    change (print "Invalid input. Please enter a number for rating." db)
      with (mk_outcome tt db ["Invalid input. Please enter a number for rating."]
                       (@nil statement)).
    cbn [db_after returned printed executed]. rewrite IH. reflexivity.
Qed.

(** X16.  [command_update_movie] asks again until [float] accepts a
    line: for a title that is not empty, every line that is no number
    gets the answer "Invalid input", and the first line that is one is
    the rating passed to [update_movie]; the lines after it stay
    unread, and the last message says whether a row was updated. *)
Theorem command_update_movie_takes_first_number (title : string)
    (bad : list string) (good : string) (rest : list string) (new_rating : Q)
    (db : database) :
  title <> EmptyString ->
  Forall (fun line => parse_float line = None) bad ->
  parse_float good = Some new_rating ->
  let out := command_update_movie str_lower str_of_float parse_float title
                                  (bad ++ good :: rest) db in
  let update := update_movie str_lower title (Some new_rating) db in
  returned out = Some rest /\
  db_after out = db_after update /\
  printed out
  = (map (fun _ => "Invalid input. Please enter a number for rating.") bad
     ++ [if returned update
         then ("Updated '" ++ title ++ "' with rating "
               ++ str_of_float new_rating)%string
         else "Movie not found or update failed."])%list.
Proof.
  intros Hne Hbad Hgood out update. subst out update.
  unfold command_update_movie, bind.
  destruct (String.eqb_spec title EmptyString) as [E | _]; [contradiction |].
  rewrite (input_new_rating_accepts bad good rest new_rating db Hbad Hgood).
  cbn [returned db_after printed executed].
  rewrite update_movie_run. cbn [returned db_after printed executed].
  destruct (negb _); cbn [print returned db_after printed ret];
    rewrite ?app_nil_r; repeat split.
Qed.

(** X17.  [command_update_movie] when the console ends before a number
    comes: for a title that is not empty and lines none of which
    [float] accepts, the command ends in the error of [input]; no
    statement has been sent and the store is as before. *)
Theorem command_update_movie_without_number (title : string)
    (lines : list string) (db : database) :
  title <> EmptyString ->
  Forall (fun line => parse_float line = None) lines ->
  let out := command_update_movie str_lower str_of_float parse_float title
                                  lines db in
  returned out = None /\ db_after out = db /\ executed out = [] /\
  printed out
  = map (fun _ => "Invalid input. Please enter a number for rating.") lines.
Proof.
  intros Hne Hbad out. subst out.
  unfold command_update_movie, bind.
  destruct (String.eqb_spec title EmptyString) as [E | _]; [contradiction |].
  rewrite (input_new_rating_rejects lines db Hbad).
  cbn [returned db_after printed executed ret].
  rewrite !app_nil_r. repeat split.
Qed.

End WritingCommands.

(** ** The page generator *)

Lemma count_char_app (c : ascii) (a b : string) :
  count_char c (a ++ b) = (count_char c a + count_char c b)%nat.
Proof.
  induction a as [| c' a IH]; simpl; [reflexivity |].
  rewrite IH. lia.
Qed.

Lemma count_char_escape_char (c c' : ascii) :
  c = "<"%char \/ c = ">"%char \/ c = ascii_of_N 34 \/ c = "'"%char ->
  count_char c (escape_char c') = O.
Proof.
  intros Hc. unfold escape_char.
  destruct (Ascii.eqb c' "&") eqn:E1;
    [destruct Hc as [-> | [-> | [-> | ->]]]; reflexivity |].
  destruct (Ascii.eqb c' "<") eqn:E2;
    [destruct Hc as [-> | [-> | [-> | ->]]]; reflexivity |].
  destruct (Ascii.eqb c' ">") eqn:E3;
    [destruct Hc as [-> | [-> | [-> | ->]]]; reflexivity |].
  destruct (Ascii.eqb c' (ascii_of_N 34)) eqn:E4;
    [destruct Hc as [-> | [-> | [-> | ->]]]; reflexivity |].
  destruct (Ascii.eqb c' "'") eqn:E5;
    [destruct Hc as [-> | [-> | [-> | ->]]]; reflexivity |].
  simpl. destruct Hc as [-> | [-> | [-> | ->]]];
    rewrite ?E2, ?E3, ?E4, ?E5; reflexivity.
Qed.

(** X18.  [escape] leaves no markup: whatever the text, the result holds
    no "<", no ">", no double quote and no single quote. *)
Theorem escape_leaves_no_markup (s : string) :
  count_char "<" (escape s) = O /\
  count_char ">" (escape s) = O /\
  count_char (ascii_of_N 34) (escape s) = O /\
  count_char "'" (escape s) = O.
Proof.
  induction s as [| c s [IH1 [IH2 [IH3 IH4]]]]; [repeat split |].
  cbn [escape]. rewrite !count_char_app, IH1, IH2, IH3, IH4.
  rewrite !count_char_escape_char; auto.
Qed.

Lemma count_char_movie_li (title : string) (year : Z) (poster_url : string) :
  count_char "<" (_movie_li title year poster_url) = 9%nat /\
  count_char ">" (_movie_li title year poster_url) = 9%nat /\
  count_char "'" (_movie_li title year poster_url) = 12%nat /\
  count_char (ascii_of_N 34) (_movie_li title year poster_url) = O.
Proof.
  unfold _movie_li. cbv zeta.
  destruct (escape_leaves_no_markup title) as [T1 [T2 [T3 T4]]].
  destruct (escape_leaves_no_markup (str_of_Z year)) as [Y1 [Y2 [Y3 Y4]]].
  destruct (escape_leaves_no_markup (or_NA poster_url)) as [P1 [P2 [P3 P4]]].
  rewrite !count_char_app, T1, T2, T3, T4, Y1, Y2, Y3, Y4, P1, P2, P3, P4.
  repeat split.
Qed.

Lemma append_empty_r (s : string) : s ++ EmptyString = s.
Proof. induction s as [| c s IH]; simpl; [reflexivity | now rewrite IH]. Qed.

Lemma concat_empty_cons (x : string) (xs : list string) :
  String.concat EmptyString (x :: xs) = x ++ String.concat EmptyString xs.
Proof.
  destruct xs as [| y ys]; simpl; [now rewrite append_empty_r | reflexivity].
Qed.

(** X19.  The list on the page has one item per movie and nothing else
    that is markup: whatever titles, years and posters the dictionary
    holds, the grid has nine "<", nine ">" and twelve single quotes per
    entry -- those of the item itself -- and no double quote; so no
    stored text opens a tag or ends an attribute. *)
Theorem _build_movie_grid_one_item_per_movie (movies_dict : dict entry.t) :
  count_char "<" (_build_movie_grid movies_dict) = (9 * List.length movies_dict)%nat /\
  count_char ">" (_build_movie_grid movies_dict) = (9 * List.length movies_dict)%nat /\
  count_char "'" (_build_movie_grid movies_dict) = (12 * List.length movies_dict)%nat /\
  count_char (ascii_of_N 34) (_build_movie_grid movies_dict) = O.
Proof.
  unfold _build_movie_grid.
  induction movies_dict as [| [title data] l [IH1 [IH2 [IH3 IH4]]]];
    [repeat split |].
  cbn [map List.length fst snd]. rewrite concat_empty_cons.
  destruct (count_char_movie_li title (entry.year data) (or_NA (entry.poster data)))
    as [L1 [L2 [L3 L4]]].
  rewrite !count_char_app, L1, L2, L3, L4, IH1, IH2, IH3, IH4.
  repeat split; lia.
Qed.

(** *** Filling the template *)

Lemma replace_from_skip (old new pre s : string) :
  replace_from old new (String.length pre) (pre ++ s) = replace_from old new 0 s.
Proof.
  induction pre as [| c pre IH]; simpl.
  - now destruct s.
  - exact IH.
Qed.

Lemma starts_with_itself (old s : string) : starts_with old (old ++ s) = true.
Proof.
  induction old as [| c old IH]; simpl; [reflexivity |].
  now rewrite Ascii.eqb_refl.
Qed.

Lemma replace_from_occurrence (c0 : ascii) (old' new s : string) :
  replace_from (String c0 old') new 0 (String c0 old' ++ s)
  = new ++ replace_from (String c0 old') new 0 s.
Proof.
  cbn [append replace_from].
  change (String c0 (old' ++ s)) with (String c0 old' ++ s).
  rewrite starts_with_itself.
  replace (String.length (String c0 old') - 1)%nat with (String.length old')
    by (cbn [String.length]; lia).
  apply f_equal. apply replace_from_skip.
Qed.

Lemma replace_from_passes (c0 : ascii) (old' new a s : string) :
  count_char c0 a = O ->
  replace_from (String c0 old') new 0 (a ++ s)
  = a ++ replace_from (String c0 old') new 0 s.
Proof.
  induction a as [| c a IH]; intros Hc; [reflexivity |].
  cbn [count_char] in Hc. cbn [append replace_from starts_with].
  destruct (Ascii.eqb_spec c c0) as [-> | Hne]; [discriminate Hc |].
  destruct (Ascii.eqb_spec c0 c) as [E | _]; [congruence |].
  cbn [andb]. now rewrite IH.
Qed.

Lemma replace_from_nothing (c0 : ascii) (old' new a : string) :
  count_char c0 a = O -> replace_from (String c0 old') new 0 a = a.
Proof.
  intros Hc. rewrite <- (append_empty_r a) at 1.
  rewrite replace_from_passes by assumption. simpl. apply append_empty_r.
Qed.

Lemma starts_with_missing_char (c : ascii) (start s : string) :
  count_char c start <> O -> count_char c s = O -> starts_with start s = false.
Proof.
  revert s. induction start as [| a start IH]; intros s Hstart Hs.
  - simpl in Hstart. contradiction.
  - destruct s as [| b s]; [reflexivity |].
    cbn [starts_with]. cbn [count_char] in Hstart, Hs.
    destruct (Ascii.eqb_spec a b) as [<- | Hne]; [| reflexivity].
    cbn [andb]. destruct (Ascii.eqb_spec a c) as [-> | Hac].
    + discriminate Hs.
    + apply IH; [exact Hstart | lia].
Qed.

Lemma replace_from_cons (old new : string) (c : ascii) (s : string) :
  replace_from old new 0 (String c s)
  = if starts_with old (String c s)
    then new ++ replace_from old new (String.length old - 1) s
    else String c (replace_from old new 0 s).
Proof. reflexivity. Qed.

Lemma starts_with_cons (a b : ascii) (start s : string) :
  starts_with (String a start) (String b s) = Ascii.eqb a b && starts_with start s.
Proof. reflexivity. Qed.

Ltac compare_chars :=
  repeat match goal with
         | |- context [Ascii.eqb ?a ?b] =>
             let v := eval vm_compute in (Ascii.eqb a b) in
             change (Ascii.eqb a b) with v
         end.

Ltac scan_one_char Htail :=
  rewrite replace_from_cons; rewrite ?starts_with_cons; compare_chars;
  cbn [andb];
  rewrite ?(fun start H => starts_with_missing_char "_" start _ H Htail)
    by (vm_compute; discriminate);
  cbv iota.

Lemma title_place_not_in_grid_place (new tail : string) :
  count_char "_" tail = O ->
  replace_from "__TEMPLATE_TITLE__" new 0 ("__TEMPLATE_MOVIE_GRID__" ++ tail)
  = "__TEMPLATE_MOVIE_GRID__" ++ tail.
Proof.
  intros Htail. cbn [append].
  do 23 (scan_one_char Htail).
  now rewrite replace_from_nothing.
Qed.

(** X20.  [render_website_html] fills both places of a template: for a
    template that names the title place once and the grid place once
    after it and has no underscore elsewhere, and a title without
    underscore, the result is the template with the escaped title in
    the first place and the movie grid in the second, the rest as it
    was. *)
Theorem render_website_html_fills_both_places (head middle tail title : string)
    (movies_dict : dict entry.t) :
  count_char "_" head = O -> count_char "_" middle = O ->
  count_char "_" tail = O -> count_char "_" title = O ->
  render_website_html title
    (head ++ "__TEMPLATE_TITLE__" ++ middle ++ "__TEMPLATE_MOVIE_GRID__" ++ tail)
    movies_dict
  = head ++ escape title ++ middle ++ _build_movie_grid movies_dict ++ tail.
Proof.
  intros Hhead Hmiddle Htail Htitle.
  assert (Hescaped : count_char "_" (escape title) = O).
  { clear - Htitle. induction title as [| c t IH]; [reflexivity |].
    cbn [count_char] in Htitle. cbn [escape]. rewrite count_char_app.
    destruct (Ascii.eqb_spec c "_") as [-> | Hne]; [discriminate Htitle |].
    rewrite IH by exact Htitle. unfold escape_char.
    repeat match goal with
           | |- context [if Ascii.eqb c ?x then _ else _] =>
               destruct (Ascii.eqb c x); [reflexivity |]
           end.
    simpl. destruct (Ascii.eqb_spec c "_"); [contradiction | reflexivity]. }
  unfold render_website_html, replace.
  rewrite (replace_from_passes "_" "_TEMPLATE_TITLE__" _ head) by assumption.
  rewrite (replace_from_occurrence "_" "_TEMPLATE_TITLE__").
  rewrite (replace_from_passes "_" "_TEMPLATE_TITLE__" _ middle) by assumption.
  rewrite title_place_not_in_grid_place by assumption.
  rewrite (replace_from_passes "_" "_TEMPLATE_MOVIE_GRID__" _ head) by assumption.
  rewrite (replace_from_passes "_" "_TEMPLATE_MOVIE_GRID__" _ (escape title))
    by assumption.
  rewrite (replace_from_passes "_" "_TEMPLATE_MOVIE_GRID__" _ middle) by assumption.
  rewrite (replace_from_occurrence "_" "_TEMPLATE_MOVIE_GRID__").
  now rewrite replace_from_nothing.
Qed.

(** *** [generate_website] *)

(** X21.  [generate_website] writes one file and reads the store: when
    the template is there, the page rendered from what [get_movies]
    returns is written to [output_path] -- or, when that is [None] or
    empty, to index.html in the directory of the script --, every other
    file is as before, the store is as before and the success line is
    printed; when the template file is missing, the call ends in the
    error of [open] before the store is read, and nothing is written or
    printed.  A template read from a file comes with its line ends
    turned into LF. *)
Theorem generate_website_writes_one_file (base_dir title : string)
    (template_path output_path : option string) (disk : files) (db : database) :
  let out := generate_website base_dir title template_path output_path disk db in
  let out_path :=
    match output_path with
    | None => base_dir ++ "/index.html"
    | Some path => if String.eqb path EmptyString then base_dir ++ "/index.html"
                   else path
    end in
  let template :=
    match template_path with
    | None => Some TEMPLATE_DEFAULT
    | Some path => if String.eqb path EmptyString then Some TEMPLATE_DEFAULT
                   else option_map universal_newlines (dict_get path disk)
    end in
  match template with
  | None => out = mk_outcome None db [] []
  | Some template_str =>
      db_after out = db /\
      executed out = [SELECT_title_year_rating_poster] /\
      printed out = ["Website was generated successfully."] /\
      exists disk',
        returned out = Some disk' /\
        dict_get out_path disk'
        = Some (render_website_html title template_str (returned (get_movies db))) /\
        forall path, path <> out_path -> dict_get path disk' = dict_get path disk
  end.
Proof.
  intros out out_path template. subst out.
  change template with (_load_template_str template_path disk).
  unfold generate_website.
  destruct (_load_template_str template_path disk) as [template_str |];
    [| reflexivity].
  unfold bind. rewrite get_movies_run.
  cbn [returned db_after printed executed print ret app].
  repeat split.
  eexists. split; [reflexivity |]. split.
  - apply dict_get_set_same.
  - intros path Hne. now apply dict_get_set_other.
Qed.

(** Line ends of a template file: a CR LF pair and a lone CR both come
    out as one LF. *)
Example universal_newlines_of_a_template :
  _load_template_str (Some "t.html")
    [("t.html", "<p>" ++ String (ascii_of_N 13) LF ++ "__TEMPLATE_TITLE__"
                ++ String (ascii_of_N 13) "</p>")]
  = Some ("<p>" ++ LF ++ "__TEMPLATE_TITLE__" ++ LF ++ "</p>").
Proof. reflexivity. Qed.

(** ** The menu loop *)

Section MainLoop.

Variable str_lower : string -> string.
Variable str_of_float : Q -> string.
Variable parse_float : string -> option Q.
Variable str_strip : string -> string.
Variable parse_int : string -> option Z.
Variable fetch_movie_data :
  string -> option (option Z * option Q * option string * string).
Variable base_dir : string.
Variable draw : nat -> nat.

(** A property of the store that every call of its interface keeps. *)
Variable kept : database -> Prop.
Hypothesis kept_by_run : forall c db, kept db -> kept (run str_lower c db).

Lemma command_add_movie_keeps (title_input : string) (db : database) :
  kept db ->
  kept
    (db_after (command_add_movie str_lower fetch_movie_data str_of_float
                                 title_input db)).
Proof.
  intros Hreach. unfold command_add_movie, bind.
  cbn [returned db_after get_movies].
  change (db_after (get_movies db)) with db.
  destruct (String.eqb title_input EmptyString); [exact Hreach |].
  destruct (existsb _ _); [exact Hreach |].
  destruct (fetch_movie_data title_input) as [[[[y r] p] ft] |]; [| exact Hreach].
  set (y' := match y with None => 0 | Some y0 => y0 end).
  set (r' := match r with None => 0%Q | Some r0 => r0 end).
  set (p' := match p with None => EmptyString | Some u => u end).
  pose proof (kept_by_run (call_add_movie ft y' r' p') db Hreach) as H.
  cbn [run] in H.
  now destruct (returned (add_movie ft y' r' p' db)).
Qed.

Lemma command_delete_movie_keeps (title : string) (db : database) :
  kept db ->
  kept (db_after (command_delete_movie str_lower title db)).
Proof.
  intros Hreach. unfold command_delete_movie, bind.
  destruct (String.eqb title EmptyString); [exact Hreach |].
  pose proof (kept_by_run (call_delete_movie title) db Hreach) as H.
  cbn [run] in H.
  now destruct (returned (delete_movie str_lower title db)).
Qed.

Lemma input_new_rating_reads (lines : list string) (db : database) :
  db_after (input_new_rating parse_float lines db) = db /\
  match returned (input_new_rating parse_float lines db) with
  | None => True
  | Some (_, rest) => (List.length rest <= List.length lines)%nat
  end.
Proof.
  induction lines as [| line lines [IHdb IHrest]]; [split; [reflexivity | exact I] |].
  cbn [input_new_rating].
  destruct (parse_float line); [split; [reflexivity | simpl; lia] |].
  unfold bind.
  change (print "Invalid input. Please enter a number for rating." db)
    with (mk_outcome tt db ["Invalid input. Please enter a number for rating."]
                     (@nil statement)).
  cbn [returned db_after]. split; [exact IHdb |].
  destruct (returned (input_new_rating parse_float lines db)) as [[q rest] |];
    [simpl; lia | exact I].
Qed.

Lemma command_update_movie_keeps (title : string) (lines : list string)
    (db : database) :
  kept db ->
  kept
    (db_after (command_update_movie str_lower str_of_float parse_float title lines db)) /\
  match returned (command_update_movie str_lower str_of_float parse_float title
                                       lines db) with
  | None => True
  | Some rest => (List.length rest <= List.length lines)%nat
  end.
Proof.
  intros Hreach. unfold command_update_movie.
  destruct (String.eqb title EmptyString); [split; [exact Hreach | simpl; lia] |].
  unfold bind.
  destruct (input_new_rating_reads lines db) as [Hdb Hrest].
  rewrite Hdb.
  destruct (returned (input_new_rating parse_float lines db)) as [[q rest] |];
    [| split; [exact Hreach | exact I]].
  pose proof (kept_by_run (call_update_movie title (Some q)) db Hreach) as H.
  cbn [run] in H.
  destruct (returned (update_movie str_lower title (Some q) db));
    cbn [returned db_after print ret]; split; assumption.
Qed.

Lemma stats_of_movies_reads (db : database) : db_after (stats_of_movies db) = db.
Proof.
  unfold stats_of_movies, bind, execute_select_rating. cbn [returned db_after].
  now destruct (map movies.rating (rows db)).
Qed.

Lemma dispatcher_keys (user_choice : Z) :
  in_dispatcher user_choice = true ->
  user_choice = 0 \/ user_choice = 1 \/ user_choice = 2 \/ user_choice = 3 \/
  user_choice = 4 \/ user_choice = 5 \/ user_choice = 6 \/ user_choice = 7 \/
  user_choice = 8 \/ user_choice = 9.
Proof.
  unfold in_dispatcher. rewrite andb_true_iff, !Z.leb_le. lia.
Qed.

(** What every entry of the dispatcher keeps: the property of the store,
    the console only loses lines, and no file changes but the page. *)
Lemma action_keeps (user_choice : Z) (round : nat) (con : console) (db : database) :
  in_dispatcher user_choice = true ->
  kept db ->
  let out := action str_lower str_of_float parse_float str_strip fetch_movie_data
                    base_dir draw user_choice round con db in
  kept (db_after out) /\
  match returned out with
  | None => True
  | Some (con', _) =>
      (List.length (stdin con') <= List.length (stdin con))%nat /\
      forall path, path <> base_dir ++ "/index.html" ->
                   dict_get path (disk con') = dict_get path (disk con)
  end.
Proof.
  intros Hkey Hreach out. subst out.
  destruct (reading_commands_only_select str_lower str_of_float EmptyString
              (draw round) db) as [[L _] [[R _] [[S0 _] [K _]]]].
  apply dispatcher_keys in Hkey.
  destruct Hkey as [-> | [-> | [-> | [-> | [-> | [-> | [-> | [-> | [-> | ->]]]]]]]]];
    cbn [action].
  - unfold bind. cbn. auto.
  - unfold bind. cbn [returned db_after ret]. rewrite L. auto.
  - destruct (stdin con) as [| line rest].
    + unfold bind. cbn [returned db_after ret get_movies execute_select_movies].
      auto.
    + unfold bind. cbn [returned db_after ret stdin disk].
      split; [now apply command_add_movie_keeps |].
      split; [simpl; lia | reflexivity].
  - destruct (stdin con) as [| line rest].
    + cbn. auto.
    + unfold bind. cbn [returned db_after ret stdin disk].
      split; [now apply command_delete_movie_keeps |].
      split; [simpl; lia | reflexivity].
  - destruct (stdin con) as [| line rest].
    + cbn. auto.
    + unfold bind.
      destruct (command_update_movie_keeps (str_strip line) rest db Hreach)
        as [Hr Hlen].
      destruct (returned (command_update_movie _ _ _ _ _ _)) as [rest' |];
        cbn [returned db_after ret stdin disk].
      * split; [exact Hr |]. split; [simpl; lia | reflexivity].
      * split; [exact Hr | exact I].
  - unfold bind, command_stats_of_movies. cbn [returned db_after ret].
    rewrite stats_of_movies_reads. auto.
  - unfold bind. cbn [returned db_after ret]. rewrite R. auto.
  - destruct (rows db) as [| r0 l0] eqn:E.
    + unfold bind. cbn [returned db_after ret]. rewrite S0. auto.
    + destruct (stdin con) as [| line rest].
      * unfold bind. cbn [returned db_after ret get_movies execute_select_movies].
        auto.
      * unfold bind. cbn [returned db_after ret stdin disk].
        destruct (reading_commands_only_select str_lower str_of_float
                    (str_strip line) 0 db) as [_ [_ [[S1 _] _]]].
        rewrite S1. split; [exact Hreach |].
        split; [simpl; lia | reflexivity].
  - unfold bind. cbn [returned db_after ret]. rewrite K. auto.
  - unfold bind, command_generate_website, generate_website.
    cbn [_load_template_str]. unfold bind. rewrite get_movies_run.
    cbn [returned db_after ret print stdin disk].
    split; [exact Hreach |]. split; [lia |].
    intros path Hne. now apply dict_get_set_other.
Qed.

Lemma read_choice_keeps (disk0 : files)
    (next : nat -> console -> M (option (ending * console))) (bound : nat) :
  (forall loop_count con db,
     kept db ->
     (List.length (stdin con) < bound)%nat ->
     (forall path, path <> base_dir ++ "/index.html" ->
                   dict_get path (disk con) = dict_get path disk0) ->
     kept (db_after (next loop_count con db)) /\
     exists e con',
       returned (next loop_count con db) = Some (e, con') /\
       (e = EOFError -> stdin con' = []) /\
       forall path, path <> base_dir ++ "/index.html" ->
                    dict_get path (disk con') = dict_get path disk0) ->
  forall round loop_count con db,
    kept db ->
    (List.length (stdin con) < S bound)%nat ->
    (forall path, path <> base_dir ++ "/index.html" ->
                  dict_get path (disk con) = dict_get path disk0) ->
    let out := read_choice str_lower str_of_float parse_float str_strip parse_int
                           fetch_movie_data base_dir draw next round loop_count
                           con db in
    kept (db_after out) /\
    exists e con',
      returned out = Some (e, con') /\
      (e = EOFError -> stdin con' = []) /\
      forall path, path <> base_dir ++ "/index.html" ->
                   dict_get path (disk con') = dict_get path disk0.
Proof.
  intros Hnext round loop_count con db Hreach Hlen Hdisk out. subst out.
  unfold read_choice, bind, print_menu.
  cbn [returned db_after print ret].
  destruct (stdin con) as [| line rest] eqn:E.
  - split; [exact Hreach |]. exists EOFError, con. cbn [returned]. auto.
  - cbn [List.length] in Hlen.
    destruct (parse_int (str_strip line)) as [user_choice |].
    + destruct (in_dispatcher user_choice) eqn:Hkey.
      * pose proof (action_keeps user_choice round (mk_console rest (disk con)) db
                      Hkey Hreach) as [Hr Hcon].
        cbv zeta in Hr, Hcon.
        destruct (returned (action _ _ _ _ _ _ _ _ _ _ _)) as [[con' run_program] |].
        -- destruct Hcon as [Hl Hd]. cbn [stdin disk] in Hl, Hd.
           destruct run_program.
           ++ apply Hnext; [exact Hr | lia |].
              intros path Hne. rewrite Hd by assumption. now apply Hdisk.
           ++ cbn [returned db_after]. split; [exact Hr |].
              exists Returned, con'. split; [reflexivity |].
              split; [discriminate |].
              intros path Hne. rewrite Hd by assumption. now apply Hdisk.
        -- cbn [returned db_after]. split; [exact Hr |].
           exists EOFError, (mk_console [] (disk con)). auto.
      * cbn [returned db_after]. apply Hnext; [exact Hreach | simpl; lia | exact Hdisk].
    + cbn [returned db_after]. apply Hnext; [exact Hreach | simpl; lia | exact Hdisk].
Qed.

Lemma main_loop_keeps (disk0 : files) (fuel : nat) :
  forall round loop_count con db,
    kept db ->
    (List.length (stdin con) < fuel)%nat ->
    (forall path, path <> base_dir ++ "/index.html" ->
                  dict_get path (disk con) = dict_get path disk0) ->
    let out := main_loop str_lower str_of_float parse_float str_strip parse_int
                         fetch_movie_data base_dir draw fuel round loop_count
                         con db in
    kept (db_after out) /\
    exists e con',
      returned out = Some (e, con') /\
      (e = EOFError -> stdin con' = []) /\
      forall path, path <> base_dir ++ "/index.html" ->
                   dict_get path (disk con') = dict_get path disk0.
Proof.
  induction fuel as [| fuel IH]; intros round loop_count con db Hreach Hlen Hdisk.
  - lia.
  - cbn [main_loop]. unfold one_round.
    destruct (1 <=? loop_count)%nat.
    + destruct (stdin con) as [| line rest] eqn:E.
      * cbn [returned db_after ret]. split; [exact Hreach |].
        exists EOFError, con. auto.
      * cbn [List.length] in Hlen.
        apply (read_choice_keeps disk0 _ fuel); try assumption.
        -- intros lc c d. apply IH.
        -- simpl. lia.
    + apply (read_choice_keeps disk0 _ fuel); try assumption.
      intros lc c d. apply IH.
Qed.

End MainLoop.

(** X23.  No session breaks the store: whatever is typed, a session of
    [main] that starts in a reachable state ends in a reachable state;
    so the stored titles are still pairwise different afterwards. *)
Theorem main_keeps_titles_unique (str_lower : string -> string)
    (str_of_float : Q -> string)
    (parse_float : string -> option Q) (str_strip : string -> string)
    (parse_int : string -> option Z)
    (fetch_movie_data : string -> option (option Z * option Q * option string * string))
    (base_dir : string) (draw : nat -> nat) (con : console) (db : database) :
  reachable str_lower db ->
  let out := main str_lower str_of_float parse_float str_strip parse_int
                  fetch_movie_data base_dir draw con db in
  reachable str_lower (db_after out) /\ NoDup (titles (db_after out)).
Proof.
  intros Hreach out. subst out.
  destruct (main_loop_keeps str_lower str_of_float parse_float str_strip parse_int
              fetch_movie_data base_dir draw (reachable str_lower)
              (reachable_run str_lower)
              (disk con) (S (List.length (stdin con))) 0%nat 0%nat con db Hreach)
    as [Hr _]; [lia | reflexivity |].
  split; [exact Hr |]. now apply (reachable_titles_unique str_lower).
Qed.


(** ** The further theorems at work *)

Lemma rowids_never_reused_witness :
  rowids_in_order db_two_gladiators /\
  forall c,
    sqlite_sequence db_two_gladiators
    <= sqlite_sequence (run str_lower_7bit c db_two_gladiators) /\
    forall r', In r' (rows (run str_lower_7bit c db_two_gladiators)) ->
               movies.id r' <= sqlite_sequence db_two_gladiators ->
               exists r, In r (rows db_two_gladiators) /\
                         movies.id r = movies.id r' /\
                         movies.title r = movies.title r'.
Proof.
  exact (rowids_never_reused str_lower_7bit db_two_gladiators
           db_two_gladiators_reachable).
Defined.

Lemma add_movie_after_delete_movie_witness :
  returned (add_movie "Gladiator" 2000 8.5 "x"
              (db_after (delete_movie str_lower_7bit "Gladiator" db_two_gladiators)))
  = true.
Proof.
  exact (proj2 (add_movie_after_delete_movie str_lower_7bit str_lower_7bit_ascii
                  "Gladiator" 2000 8.5 "x" db_two_gladiators eq_refl)).
Defined.

Lemma get_movies_after_delete_movie_witness :
  dict_get "gladiator"
    (returned (get_movies (db_after (delete_movie str_lower_7bit "GLADIATOR"
                                                  db_two_gladiators))))
  = None.
Proof.
  exact (get_movies_after_delete_movie str_lower_7bit str_lower_7bit_ascii
           "GLADIATOR" "gladiator" db_two_gladiators
           db_two_gladiators_reachable eq_refl).
Defined.

Lemma get_movies_after_update_movie_witness :
  let after := db_after (update_movie str_lower_7bit "GLADIATOR" (Some 9.0%Q)
                                      db_two_gladiators) in
  keys (returned (get_movies after)) = ["Gladiator"; "gladiator"] /\
  dict_get "Gladiator" (returned (get_movies after))
  = Some (entry.mk 2000 9.0 "http://...").
Proof.
  exact (get_movies_after_update_movie str_lower_7bit str_lower_7bit_ascii
           "GLADIATOR" "Gladiator" 9.0 db_two_gladiators
           db_two_gladiators_reachable eq_refl).
Defined.

Lemma add_movie_year_out_of_range_witness :
  add_movie "Gladiator" (2 ^ 63) 8.5 "x" db_gladiator
  = mk_outcome false db_gladiator
      ["Unexpected error while adding 'Gladiator': "
       ++ "Python int too large to convert to SQLite INTEGER"]
      [INSERT_INTO_movies "Gladiator" (2 ^ 63) 8.5 "x"].
Proof.
  apply (add_movie_year_out_of_range "Gladiator" (2 ^ 63) 8.5 "x" db_gladiator).
  right. lia.
Defined.

Lemma get_movies_after_add_movie_elsewhere_witness :
  dict_get "Gladiator"
    (returned (get_movies (db_after (add_movie "Alien" 1979 8.5 "N/A" db_gladiator))))
  = Some (entry.mk 2000 8.5 "http://...").
Proof.
  apply (get_movies_after_add_movie_elsewhere "Alien" "Gladiator" 1979 8.5 "N/A"
           db_gladiator).
  discriminate.
Defined.

Lemma command_add_movie_refuses_known_title_witness :
  command_add_movie str_lower_7bit (fun _ => None) (fun _ => "8.5")
                    "GLADIATOR" db_gladiator
  = mk_outcome tt db_gladiator ["Movie already exists as 'GLADIATOR'."]
               [SELECT_title_year_rating_poster].
Proof.
  apply (command_add_movie_refuses_known_title str_lower_7bit (fun _ => None)
           (fun _ => "8.5") "GLADIATOR" db_gladiator).
  - discriminate.
  - exists "Gladiator". split; [now left | reflexivity].
Defined.

Lemma command_list_movies_lists_every_row_witness :
  printed (command_list_movies (fun _ => "R") db_two_gladiators)
  = [LF ++ "2 movies in total:";
     "Gladiator: Rating R, Year 2000"; "gladiator: Rating R, Year 2001"].
Proof.
  exact (command_list_movies_lists_every_row str_lower_7bit (fun _ => "R")
           db_two_gladiators db_two_gladiators_reachable).
Defined.

Lemma command_search_movie_shows_the_matches_witness :
  printed (command_search_movie str_lower_7bit (fun _ => "R") "DIA"
                                db_two_gladiators)
  = ["Gladiator: Rating R, Year 2000"; "gladiator: Rating R, Year 2001"].
Proof.
  exact (proj2 (command_search_movie_shows_the_matches str_lower_7bit (fun _ => "R")
                  "DIA" db_two_gladiators db_two_gladiators_reachable
                  ltac:(discriminate) ltac:(discriminate))).
Defined.

Lemma command_random_movie_names_a_stored_movie_witness :
  exists r, In r (rows db_two_gladiators) /\
    printed (command_random_movie (fun _ => "R") 5 db_two_gladiators)
    = ["Tonight's movie: " ++ movies.title r
       ++ " (Rating: " ++ "R"
       ++ ", Year " ++ str_of_Z (movies.year r) ++ ")"].
Proof.
  apply (command_random_movie_names_a_stored_movie str_lower_7bit (fun _ => "R") 5
           db_two_gladiators db_two_gladiators_reachable).
  discriminate.
Defined.

Lemma command_update_movie_takes_first_number_witness :
  let float := fun line => if String.eqb line "9" then Some 9%Q else None in
  let out := command_update_movie str_lower_7bit (fun _ => "9.0") float
                                  "GLADIATOR" ["nine"; "9"; "0"] db_gladiator in
  returned out = Some ["0"] /\
  db_after out
  = db_after (update_movie str_lower_7bit "GLADIATOR" (Some 9%Q) db_gladiator) /\
  printed out = ["Invalid input. Please enter a number for rating.";
                 "Updated 'GLADIATOR' with rating 9.0"].
Proof.
  apply (command_update_movie_takes_first_number str_lower_7bit (fun _ => "9.0")
           (fun line => if String.eqb line "9" then Some 9%Q else None)
           "GLADIATOR" ["nine"] "9" ["0"] 9 db_gladiator).
  - discriminate.
  - constructor; [reflexivity | constructor].
  - reflexivity.
Defined.

Lemma command_update_movie_without_number_witness :
  let float := fun line => if String.eqb line "9" then Some 9%Q else None in
  let out := command_update_movie str_lower_7bit (fun _ => "9.0") float
                                  "GLADIATOR" ["nine"; "ten"] db_gladiator in
  returned out = None /\ db_after out = db_gladiator /\ executed out = [] /\
  printed out = ["Invalid input. Please enter a number for rating.";
                 "Invalid input. Please enter a number for rating."].
Proof.
  apply (command_update_movie_without_number str_lower_7bit (fun _ => "9.0")
           (fun line => if String.eqb line "9" then Some 9%Q else None)
           "GLADIATOR" ["nine"; "ten"] db_gladiator).
  - discriminate.
  - repeat constructor.
Defined.

Lemma render_website_html_fills_both_places_witness :
  let head :=
    "<!doctype html>" ++ LF ++ "<html>" ++ LF ++ "<head>" ++ LF
    ++ "    <meta charset=" ++ DQUOTE ++ "utf-8" ++ DQUOTE ++ "/>" ++ LF
    ++ "    <title>My Movie App</title>" ++ LF
    ++ "    <link rel=" ++ DQUOTE ++ "stylesheet" ++ DQUOTE
    ++ " href=" ++ DQUOTE ++ "style.css" ++ DQUOTE ++ "/>" ++ LF
    ++ "</head>" ++ LF ++ "<body>" ++ LF
    ++ "<div class=" ++ DQUOTE ++ "list-movies-title" ++ DQUOTE ++ ">" ++ LF
    ++ "    <h1>" in
  let middle :=
    "</h1>" ++ LF ++ "</div>" ++ LF ++ "<div>" ++ LF
    ++ "    <ol class=" ++ DQUOTE ++ "movie-grid" ++ DQUOTE ++ ">" ++ LF
    ++ "        " in
  let tail :=
    LF ++ "    </ol>" ++ LF ++ "</div>" ++ LF ++ "</body>" ++ LF
    ++ "</html>" ++ LF in
  render_website_html "MY MOVIE APP" TEMPLATE_DEFAULT
                      (returned (get_movies db_two_gladiators))
  = head ++ "MY MOVIE APP" ++ middle
    ++ _build_movie_grid (returned (get_movies db_two_gladiators)) ++ tail.
Proof.
  intros head middle tail.
  exact (render_website_html_fills_both_places head middle tail "MY MOVIE APP"
           (returned (get_movies db_two_gladiators))
           eq_refl eq_refl eq_refl eq_refl).
Defined.

Lemma main_keeps_titles_unique_witness :
  let out := main str_lower_7bit (fun _ => "R") (fun _ => None) (fun line => line)
                  (fun line => if String.eqb line "3" then Some 3 else Some 0)
                  (fun _ => None) "site" (fun n => n)
                  (mk_console ["3"; "GLADIATOR"; "go on"; "0"] [])
                  db_two_gladiators in
  reachable str_lower_7bit (db_after out) /\ NoDup (titles (db_after out)).
Proof.
  exact (main_keeps_titles_unique str_lower_7bit (fun _ => "R") (fun _ => None)
           (fun line => line)
           (fun line => if String.eqb line "3" then Some 3 else Some 0)
           (fun _ => None) "site" (fun n => n)
           (mk_console ["3"; "GLADIATOR"; "go on"; "0"] [])
           db_two_gladiators db_two_gladiators_reachable).
Defined.

